(** * Event ingestion service: the event model and its HTTP handler

    A shallow embedding of [pkg/model/event.go] (the [Event] envelope and
    [Event.Validate]) and of the request handler ([handlePostEvent],
    [handleHealth], [httpError], [Register]), followed by the properties
    the specification states about them.

    The Go standard library is not part of the repository.  The pieces the
    handler relies on are modelled after their documented behaviour, each
    in a module named after its package: [utf8], [unicode], [strings],
    [time], [log], [http], and for encoding/json [json] (the scanner),
    [jsonstr] (string values and names), [jsonfields] (struct fields) and
    [decoder] (the stream decoder). *)

From Stdlib Require Import ZArith NArith Ascii String List Lia Bool.
From stdpp Require Import base gmap strings list.

Local Open Scope N_scope.

(** ** Go strings

    A Go [string] is a sequence of bytes; we use [string] (a sequence of
    8-bit [ascii] values).  Library routines that index and slice work on
    the underlying byte list. *)

Definition bytes := list ascii.
Definition byteval (c : ascii) : N := N_of_ascii c.
Definition to_bytes (s : string) : bytes := list_ascii_of_string s.
Definition of_bytes (b : bytes) : string := string_of_list_ascii b.

(** The double quote character, for texts that contain it. *)
Definition dquote : string := String "034"%char EmptyString.

(** ** Package unicode/utf8 *)

Module utf8.

Definition RuneError : N := 0xFFFD.
Definition RuneSelf : N := 0x80.
Definition UTFMax : nat := 4.

(** What the tables [first] and [acceptRanges] say about a leading byte:
    ASCII, invalid, or the start of a sequence of [size] bytes whose
    second byte lies in [lo, hi]. *)
Inductive lead : Type :=
| LeadASCII
| LeadInvalid
| LeadMulti (size : nat) (lo hi : N).

Definition first (b : N) : lead :=
  if b <? 0x80 then LeadASCII
  else if b <? 0xC2 then LeadInvalid
  else if b <? 0xE0 then LeadMulti 2 0x80 0xBF
  else if b =? 0xE0 then LeadMulti 3 0xA0 0xBF
  else if b <? 0xED then LeadMulti 3 0x80 0xBF
  else if b =? 0xED then LeadMulti 3 0x80 0x9F
  else if b <? 0xF0 then LeadMulti 3 0x80 0xBF
  else if b =? 0xF0 then LeadMulti 4 0x90 0xBF
  else if b <? 0xF4 then LeadMulti 4 0x80 0xBF
  else if b =? 0xF4 then LeadMulti 4 0x80 0x8F
  else LeadInvalid.

Definition outside (lo hi x : N) : bool := (x <? lo) || (hi <? x).

(** [utf8.DecodeRuneInString]: the first rune of [s] and its width in
    bytes; [(RuneError, 0)] on the empty string and [(RuneError, 1)] on
    an ill-formed sequence. *)
Definition DecodeRuneInString (s : bytes) : N * nat :=
  match s with
  | [] => (RuneError, 0%nat)
  | c0 :: t0 =>
    let s0 := byteval c0 in
    match first s0 with
    | LeadASCII => (s0, 1%nat)
    | LeadInvalid => (RuneError, 1%nat)
    | LeadMulti sz lo hi =>
      if (length s <? sz)%nat then (RuneError, 1%nat) else
      match t0 with
      | [] => (RuneError, 1%nat)
      | c1 :: t1 =>
        let s1 := byteval c1 in
        if outside lo hi s1 then (RuneError, 1%nat)
        else if (sz <=? 2)%nat then
          (N.lor (N.shiftl (N.land s0 0x1F) 6) (N.land s1 0x3F), 2%nat)
        else
        match t1 with
        | [] => (RuneError, 1%nat)
        | c2 :: t2 =>
          let s2 := byteval c2 in
          if outside 0x80 0xBF s2 then (RuneError, 1%nat)
          else if (sz <=? 3)%nat then
            (N.lor (N.shiftl (N.land s0 0x0F) 12)
               (N.lor (N.shiftl (N.land s1 0x3F) 6) (N.land s2 0x3F)), 3%nat)
          else
          match t2 with
          | [] => (RuneError, 1%nat)
          | c3 :: _ =>
            let s3 := byteval c3 in
            if outside 0x80 0xBF s3 then (RuneError, 1%nat)
            else
              (N.lor (N.shiftl (N.land s0 0x07) 18)
                 (N.lor (N.shiftl (N.land s1 0x3F) 12)
                    (N.lor (N.shiftl (N.land s2 0x3F) 6) (N.land s3 0x3F))),
               4%nat)
          end
        end
      end
    end
  end.

(** [utf8.RuneStart]: the byte is not a continuation byte. *)
Definition RuneStart (b : N) : bool := negb (N.land b 0xC0 =? 0x80).

Definition byteAt (s : bytes) (i : Z) : N :=
  byteval (default "000"%char (s !! Z.to_nat i)).

(** The backing-up loop of [DecodeLastRuneInString]:
    [for start--; start >= lim; start-- { if RuneStart(s[start]) { break } }],
    entered after the first decrement. *)
Fixpoint backUp (fuel : nat) (s : bytes) (start lim : Z) : Z :=
  match fuel with
  | O => start
  | S fuel' =>
    if (start <? lim)%Z then start
    else if RuneStart (byteAt s start) then start
    else backUp fuel' s (start - 1)%Z lim
  end.

(** [utf8.DecodeLastRuneInString]: the last rune of [s] and its width. *)
Definition DecodeLastRuneInString (s : bytes) : N * nat :=
  let end_ := Z.of_nat (length s) in
  if (end_ =? 0)%Z then (RuneError, 0%nat) else
  let r := byteAt s (end_ - 1) in
  if r <? RuneSelf then (r, 1%nat) else
  let lim := Z.max 0 (end_ - Z.of_nat UTFMax) in
  let start := Z.max 0 (backUp UTFMax s (end_ - 2) lim) in
  let '(r', size) := DecodeRuneInString (drop (Z.to_nat start) s) in
  if (start + Z.of_nat size =? end_)%Z then (r', size) else (RuneError, 1%nat).

(** [utf8.EncodeRune] (appended to nothing): the UTF-8 encoding of a
    rune, [RuneError] for surrogates and out-of-range values. *)
Definition enc (n : N) : ascii := ascii_of_N n.

Definition EncodeRune (r : N) : bytes :=
  let r := if (0x10FFFF <? r) || ((0xD800 <=? r) && (r <=? 0xDFFF))
           then RuneError else r in
  if r <=? 0x7F then [enc r]
  else if r <=? 0x7FF then
    [enc (N.lor 0xC0 (N.shiftr r 6)); enc (N.lor 0x80 (N.land r 0x3F))]
  else if r <=? 0xFFFF then
    [enc (N.lor 0xE0 (N.shiftr r 12));
     enc (N.lor 0x80 (N.land (N.shiftr r 6) 0x3F));
     enc (N.lor 0x80 (N.land r 0x3F))]
  else
    [enc (N.lor 0xF0 (N.shiftr r 18));
     enc (N.lor 0x80 (N.land (N.shiftr r 12) 0x3F));
     enc (N.lor 0x80 (N.land (N.shiftr r 6) 0x3F));
     enc (N.lor 0x80 (N.land r 0x3F))].

End utf8.

(** ** Package unicode *)

Module unicode.

(** [unicode.IsSpace]: the Latin-1 spaces, then the [White_Space]
    property outside Latin-1. *)
Definition IsSpace (r : N) : bool :=
  if r <=? 0xFF then
    ((0x09 <=? r) && (r <=? 0x0D)) || (r =? 0x20) || (r =? 0x85) || (r =? 0xA0)
  else
    (r =? 0x1680) || ((0x2000 <=? r) && (r <=? 0x200A))
    || (r =? 0x2028) || (r =? 0x2029) || (r =? 0x202F)
    || (r =? 0x205F) || (r =? 0x3000).

End unicode.

(** ** Package strings *)

Module strings.

(** [indexFunc(s, f, truth)]: the byte index of the first rune [r] of
    [s] with [f(r) == truth]; [None] stands for -1.  The loop is Go's
    [for i, r := range s], which decodes like [DecodeRuneInString]. *)
Fixpoint indexFunc_from (fuel : nat) (s : bytes) (f : N -> bool)
    (truth : bool) (i : nat) : option nat :=
  match fuel with
  | O => None
  | S fuel' =>
    if (length s <=? i)%nat then None else
    let '(r, size) := utf8.DecodeRuneInString (drop i s) in
    if Bool.eqb (f r) truth then Some i
    else indexFunc_from fuel' s f truth (i + size)
  end.

Definition indexFunc (s : bytes) (f : N -> bool) (truth : bool) : option nat :=
  indexFunc_from (length s) s f truth 0.

(** [lastIndexFunc(s, f, truth)]: the same, scanning backwards from the
    end with [DecodeLastRuneInString]. *)
Fixpoint lastIndexFunc_from (fuel : nat) (s : bytes) (f : N -> bool)
    (truth : bool) (i : nat) : option nat :=
  match fuel with
  | O => None
  | S fuel' =>
    if (i =? 0)%nat then None else
    let '(r, size) := utf8.DecodeLastRuneInString (take i s) in
    let i' := (i - size)%nat in
    if Bool.eqb (f r) truth then Some i'
    else lastIndexFunc_from fuel' s f truth i'
  end.

Definition lastIndexFunc (s : bytes) (f : N -> bool) (truth : bool) : option nat :=
  lastIndexFunc_from (length s) s f truth (length s).

Definition TrimLeftFunc (s : bytes) (f : N -> bool) : bytes :=
  match indexFunc s f false with
  | None => []
  | Some i => drop i s
  end.

Definition TrimRightFunc (s : bytes) (f : N -> bool) : bytes :=
  match lastIndexFunc s f false with
  | Some i =>
    if utf8.RuneSelf <=? utf8.byteAt s (Z.of_nat i) then
      let '(_, wid) := utf8.DecodeRuneInString (drop i s) in
      take (i + wid) s
    else take (i + 1) s
  | None => take 0 s
  end.

Definition TrimFunc (s : bytes) (f : N -> bool) : bytes :=
  TrimRightFunc (TrimLeftFunc s f) f.

(** [strings.TrimSpace]: [s] without its leading and trailing white
    space, as defined by Unicode.  Go first runs a loop over ASCII bytes
    and falls back to [TrimFunc(s, unicode.IsSpace)], which returns the
    same slice; the model is that fall-back. *)
Definition TrimSpace (s : string) : string :=
  of_bytes (TrimFunc (to_bytes s) unicode.IsSpace).

End strings.

(** ** Go errors

    The [error] values this program can produce, with the text their
    [Error()] method returns.  [None : option error] is the nil error. *)

Inductive error : Type :=
| errors_New (text : string)
| io_EOF
| io_ErrUnexpectedEOF
| http_MaxBytesError (limit : N)
| json_SyntaxError (c : ascii) (context : string)
| json_UnmarshalTypeError (value : string) (target : string)
| json_UnknownField (key : string).

Definition hexDigit (n : N) : ascii :=
  if n <? 10 then ascii_of_N (48 + n) else ascii_of_N (87 + n).

(** [quoteChar] of encoding/json for a printable ASCII byte; any other
    byte is shown in the [\x] form. *)
Definition quoteChar (c : ascii) : string :=
  let n := byteval c in
  if n =? 39 then "'\''"
  else if n =? 92 then "'\\'"
  else if (32 <=? n) && (n <? 127) then "'" +:+ String c "'"
  else "'\x" +:+ String (hexDigit (n / 16)) (String (hexDigit (n mod 16)) "'").

(** [%q] for a key of printable characters: the key between double
    quotes, with backslash and double quote escaped. *)
Fixpoint escapeQuoted (s : string) : string :=
  match s with
  | EmptyString => EmptyString
  | String c s' =>
    if (byteval c =? 34) || (byteval c =? 92)
    then String "\"%char (String c (escapeQuoted s'))
    else String c (escapeQuoted s')
  end.

Definition Error (e : error) : string :=
  match e with
  | errors_New text => text
  | io_EOF => "EOF"
  | io_ErrUnexpectedEOF => "unexpected EOF"
  | http_MaxBytesError _ => "http: request body too large"
  | json_SyntaxError c context =>
    "invalid character " +:+ quoteChar c +:+ " " +:+ context
  | json_UnmarshalTypeError value target =>
    "json: cannot unmarshal " +:+ value +:+ " into Go " +:+ target
  | json_UnknownField key =>
    "json: unknown field " +:+ dquote +:+ escapeQuoted key +:+ dquote
  end.

(** ** Package encoding/json: the scanner

    [json.Decoder.Decode] first reads one complete JSON value from the
    stream, checking its syntax byte by byte, and only then stores it into
    the target.  The reader below accepts the same texts as the scanner of
    encoding/json and returns the value read together with the input that
    follows it. *)

Module json.

#[local] Set Warnings "-register-all".

(** A JSON value as read.  String contents and object keys are kept as
    written (between their quotes, escapes included); numbers keep their
    literal. *)
Inductive Value : Type :=
| Null
| Bool (b : bool)
| Number (lit : string)
| Str (raw : string)
| Array (elems : list Value)
| Object (members : list (string * Value)).

Inductive scanned (A : Type) : Type :=
| Scanned (a : A) (rest : string)
| NeedMore
| Invalid (c : ascii) (context : string)
| OutOfFuel.
Arguments Scanned {A} a rest.
Arguments NeedMore {A}.
Arguments Invalid {A} c context.
Arguments OutOfFuel {A}.

Definition smap {A B} (f : A -> B) (r : scanned A) : scanned B :=
  match r with
  | Scanned a rest => Scanned (f a) rest
  | NeedMore => NeedMore
  | Invalid c context => Invalid c context
  | OutOfFuel => OutOfFuel
  end.

Definition isByte (c : ascii) (d : string) : bool :=
  match d with
  | String d0 EmptyString => Ascii.eqb c d0
  | _ => false
  end.

Definition isSpace (c : ascii) : bool :=
  isByte c " " || (byteval c =? 9) || (byteval c =? 13) || (byteval c =? 10).

Definition isDigit (c : ascii) : bool :=
  (48 <=? byteval c) && (byteval c <=? 57).

Definition isDigit19 (c : ascii) : bool :=
  (49 <=? byteval c) && (byteval c <=? 57).

Definition isHex (c : ascii) : bool :=
  isDigit c
  || ((97 <=? byteval c) && (byteval c <=? 102))
  || ((65 <=? byteval c) && (byteval c <=? 70)).

Fixpoint skipSpace (s : string) : string :=
  match s with
  | String c rest => if isSpace c then skipSpace rest else s
  | EmptyString => EmptyString
  end.

(** The string states of the scanner: [stateInString],
    [stateInStringEsc], [stateInStringEscU] and its successors. *)
Inductive strState : Type :=
| InString
| InStringEsc
| InStringEscU (remaining : nat).

Fixpoint scanString (st : strState) (s : string) : scanned string :=
  match s with
  | EmptyString => NeedMore
  | String c rest =>
    match st with
    | InString =>
      if byteval c =? 34 then Scanned EmptyString rest
      else if byteval c =? 92 then smap (String c) (scanString InStringEsc rest)
      else if byteval c <? 32 then Invalid c "in string literal"
      else smap (String c) (scanString InString rest)
    | InStringEsc =>
      if isByte c "b" || isByte c "f" || isByte c "n" || isByte c "r" || isByte c "t"
         || (byteval c =? 92) || isByte c "/" || (byteval c =? 34)
      then smap (String c) (scanString InString rest)
      else if isByte c "u" then smap (String c) (scanString (InStringEscU 3) rest)
      else Invalid c "in string escape code"
    | InStringEscU k =>
      if isHex c then
        smap (String c)
             (scanString (match k with O => InString | S k' => InStringEscU k' end) rest)
      else Invalid c "in \u hexadecimal character escape"
    end
  end.

(** The number states of the scanner. *)
Inductive numState : Type :=
| StNeg | St0 | St1 | StDot | StDot0 | StE | StESign | StE0.

Fixpoint scanNumber (st : numState) (s : string) : scanned string :=
  match s with
  | EmptyString =>
    match st with
    | St0 | St1 | StDot0 | StE0 => Scanned EmptyString EmptyString
    | _ => NeedMore
    end
  | String c rest =>
    let continue st' := smap (String c) (scanNumber st' rest) in
    let endNumber := Scanned EmptyString s in
    let state0 :=
      if isByte c "." then continue StDot
      else if isByte c "e" || isByte c "E" then continue StE
      else endNumber in
    let stateESign :=
      if isDigit c then continue StE0
      else Invalid c "in exponent of numeric literal" in
    match st with
    | StNeg =>
      if isByte c "0" then continue St0
      else if isDigit19 c then continue St1
      else Invalid c "in numeric literal"
    | St1 => if isDigit c then continue St1 else state0
    | St0 => state0
    | StDot =>
      if isDigit c then continue StDot0
      else Invalid c "after decimal point in numeric literal"
    | StDot0 =>
      if isDigit c then continue StDot0
      else if isByte c "e" || isByte c "E" then continue StE
      else endNumber
    | StE =>
      if isByte c "+" || isByte c "-" then continue StESign else stateESign
    | StESign => stateESign
    | StE0 => if isDigit c then continue StE0 else endNumber
    end
  end.

(** The literals [true], [false] and [null], after their first letter. *)
Fixpoint scanLiteral (name expect : string) (s : string) : scanned unit :=
  match expect with
  | EmptyString => Scanned tt s
  | String e expect' =>
    match s with
    | EmptyString => NeedMore
    | String c rest =>
      if Ascii.eqb c e then scanLiteral name expect' rest
      else Invalid c ("in literal " +:+ name +:+ " (expecting '" +:+ String e "')")
    end
  end.

(** [maxNestingDepth] of the scanner. *)
Definition maxNestingDepth : N := 10000.

(** One JSON value, after optional white space.  [depth] is the number
    of arrays and objects being read around it. *)
Fixpoint scanValue (fuel : nat) (depth : N) (s : string) {struct fuel}
    : scanned Value :=
  match fuel with
  | O => OutOfFuel
  | S fuel' =>
    match skipSpace s with
    | EmptyString => NeedMore
    | String c rest =>
      if isByte c "{" then
        if depth <? maxNestingDepth then
          match skipSpace rest with
          | EmptyString => NeedMore
          | String c' rest' =>
            if isByte c' "}" then Scanned (Object []) rest'
            else smap Object (scanMembers fuel' (depth + 1) rest)
          end
        else Invalid c "exceeded max depth"
      else if isByte c "[" then
        if depth <? maxNestingDepth then
          match skipSpace rest with
          | EmptyString => NeedMore
          | String c' rest' =>
            if isByte c' "]" then Scanned (Array []) rest'
            else smap Array (scanElements fuel' (depth + 1) rest)
          end
        else Invalid c "exceeded max depth"
      else if byteval c =? 34 then smap Str (scanString InString rest)
      else if isByte c "-" then smap (fun l => Number (String c l)) (scanNumber StNeg rest)
      else if isByte c "0" then smap (fun l => Number (String c l)) (scanNumber St0 rest)
      else if isDigit19 c then smap (fun l => Number (String c l)) (scanNumber St1 rest)
      else if isByte c "t" then smap (fun _ => Bool true) (scanLiteral "true" "rue" rest)
      else if isByte c "f" then smap (fun _ => Bool false) (scanLiteral "false" "alse" rest)
      else if isByte c "n" then smap (fun _ => Null) (scanLiteral "null" "ull" rest)
      else Invalid c "looking for beginning of value"
    end
  end

(** The elements of a non-empty array, up to and including its [']']. *)
with scanElements (fuel : nat) (depth : N) (s : string) {struct fuel}
    : scanned (list Value) :=
  match fuel with
  | O => OutOfFuel
  | S fuel' =>
    match scanValue fuel' depth s with
    | Scanned v rest =>
      match skipSpace rest with
      | EmptyString => NeedMore
      | String c rest' =>
        if isByte c "," then smap (cons v) (scanElements fuel' depth rest')
        else if isByte c "]" then Scanned [v] rest'
        else Invalid c "after array element"
      end
    | NeedMore => NeedMore
    | Invalid c context => Invalid c context
    | OutOfFuel => OutOfFuel
    end
  end

(** The members of a non-empty object, up to and including its ['}']. *)
with scanMembers (fuel : nat) (depth : N) (s : string) {struct fuel}
    : scanned (list (string * Value)) :=
  match fuel with
  | O => OutOfFuel
  | S fuel' =>
    match skipSpace s with
    | EmptyString => NeedMore
    | String c rest =>
      if byteval c =? 34 then
        match scanString InString rest with
        | Scanned key rest1 =>
          match skipSpace rest1 with
          | EmptyString => NeedMore
          | String c1 rest2 =>
            if isByte c1 ":" then
              match scanValue fuel' depth rest2 with
              | Scanned v rest3 =>
                match skipSpace rest3 with
                | EmptyString => NeedMore
                | String c2 rest4 =>
                  if isByte c2 "," then
                    smap (cons (key, v)) (scanMembers fuel' depth rest4)
                  else if isByte c2 "}" then Scanned [(key, v)] rest4
                  else Invalid c2 "after object key:value pair"
                end
              | NeedMore => NeedMore
              | Invalid c' context => Invalid c' context
              | OutOfFuel => OutOfFuel
              end
            else Invalid c1 "after object key"
          end
        | NeedMore => NeedMore
        | Invalid c' context => Invalid c' context
        | OutOfFuel => OutOfFuel
        end
      else Invalid c "looking for beginning of object key string"
    end
  end.

(** The first value of a stream.  A value and the list it stands in
    each take one unit of fuel and at least one byte, so twice the length
    of the input is never used up ([readValue_fuel] below). *)
Definition readValue (s : string) : scanned Value :=
  scanValue (S (2 * String.length s)) 0 s.

End json.

(** ** Package encoding/json: string values and field names *)

Module jsonstr.

Definition hexVal (c : ascii) : option N :=
  let n := byteval c in
  if (48 <=? n) && (n <=? 57) then Some (n - 48)
  else if (97 <=? n) && (n <=? 102) then Some (n - 87)
  else if (65 <=? n) && (n <=? 70) then Some (n - 55)
  else None.

(** [getu4]: the rune of a leading [\uXXXX], [None] for -1. *)
Definition getu4 (s : bytes) : option N :=
  match s with
  | b :: u :: h1 :: h2 :: h3 :: h4 :: _ =>
    if (byteval b =? 92) && (byteval u =? 117) then
      match hexVal h1, hexVal h2, hexVal h3, hexVal h4 with
      | Some a, Some b', Some c, Some d => Some (((a * 16 + b') * 16 + c) * 16 + d)
      | _, _, _, _ => None
      end
    else None
  | _ => None
  end.

Definition IsSurrogate (r : N) : bool := (0xD800 <=? r) && (r <? 0xE000).

(** [utf16.DecodeRune]: the rune of a surrogate pair, U+FFFD otherwise. *)
Definition utf16_DecodeRune (r1 r2 : N) : N :=
  if (0xD800 <=? r1) && (r1 <? 0xDC00) && (0xDC00 <=? r2) && (r2 <? 0xE000)
  then N.lor (N.shiftl (r1 - 0xD800) 10) (r2 - 0xDC00) + 0x10000
  else utf8.RuneError.

(** [unquoteBytes], on the text between the quotes: escapes are
    replaced and ill-formed UTF-8 becomes U+FFFD.  [None] is Go's
    [ok == false]. *)
Fixpoint unquoteBytes (fuel : nat) (s : bytes) : option bytes :=
  match fuel with
  | O => match s with [] => Some [] | _ => None end
  | S fuel' =>
    match s with
    | [] => Some []
    | c :: t =>
      if byteval c =? 92 then
        match t with
        | [] => None
        | e :: t' =>
          let n := byteval e in
          let simple (b : N) := (cons (ascii_of_N b)) <$> unquoteBytes fuel' t' in
          if (n =? 34) || (n =? 92) || (n =? 47) || (n =? 39) then simple n
          else if n =? 98 then simple 8
          else if n =? 102 then simple 12
          else if n =? 110 then simple 10
          else if n =? 114 then simple 13
          else if n =? 116 then simple 9
          else if n =? 117 then
            match getu4 s with
            | None => None
            | Some rr =>
              let s6 := drop 6 s in
              if IsSurrogate rr then
                let dec := match getu4 s6 with
                           | Some rr1 => utf16_DecodeRune rr rr1
                           | None => utf8.RuneError
                           end in
                if dec =? utf8.RuneError
                then (app (utf8.EncodeRune utf8.RuneError)) <$> unquoteBytes fuel' s6
                else (app (utf8.EncodeRune dec)) <$> unquoteBytes fuel' (drop 6 s6)
              else (app (utf8.EncodeRune rr)) <$> unquoteBytes fuel' s6
            end
          else None
        end
      else if (byteval c =? 34) || (byteval c <? 32) then None
      else if byteval c <? utf8.RuneSelf then (cons c) <$> unquoteBytes fuel' t
      else
        let '(rr, size) := utf8.DecodeRuneInString s in
        (app (utf8.EncodeRune rr)) <$> unquoteBytes fuel' (drop size s)
    end
  end.

Definition unquote (raw : string) : option string :=
  of_bytes <$> unquoteBytes (String.length raw) (to_bytes raw).

(** [foldName]: ASCII letters in upper case.  Of the runes outside
    ASCII only U+017F and U+212A fold to an ASCII letter; the others are
    kept as they are, which is exact whenever one of the two names
    compared is ASCII, as every name of [Event] is. *)
Fixpoint foldBytes (fuel : nat) (s : bytes) : bytes :=
  match fuel with
  | O => []
  | S fuel' =>
    match s with
    | [] => []
    | c :: t =>
      let n := byteval c in
      if n <? utf8.RuneSelf then
        (if (97 <=? n) && (n <=? 122) then ascii_of_N (n - 32) else c)
          :: foldBytes fuel' t
      else
        let '(r, size) := utf8.DecodeRuneInString s in
        let r' := if r =? 0x17F then 83 else if r =? 0x212A then 75 else r in
        utf8.EncodeRune r' ++ foldBytes fuel' (drop size s)
    end
  end.

Definition foldName (s : string) : string :=
  of_bytes (foldBytes (String.length s) (to_bytes s)).

End jsonstr.

(** ** Package time *)

Module time.

Inductive Location : Type :=
| LocUTC
| LocLocal
| LocFixed (offset : Z).

(** A [time.Time]: the instant, as seconds and nanoseconds since
    January 1, year 1, 00:00:00 UTC, and the location it is shown in. *)
Record Time : Type := mkTime { sec : Z; nsec : Z; loc : Location }.

(** The zero value [time.Time{}]. *)
Definition zero : Time := mkTime 0 0 LocUTC.

(** [Time.IsZero]: the instant is January 1, year 1, 00:00:00 UTC. *)
Definition IsZero (t : Time) : bool := (sec t =? 0)%Z && (nsec t =? 0)%Z.

(** [Time.UTC]: the same instant with the location set to UTC. *)
Definition UTC (t : Time) : Time := mkTime (sec t) (nsec t) LocUTC.

End time.

(** ** pkg/model/event.go *)

Module model.

(** [type Event struct].  [Type] is a reserved word, hence [Type_];
    [Payload] is an [any]: [None] is nil.  The struct tags of the fields
    are with the decoder, in [Event_fields] below. *)
Record Event : Type := mkEvent {
  ID : string;
  Type_ : string;
  Source : string;
  Timestamp : time.Time;
  Payload : option json.Value
}.

(** The zero value, [var evt model.Event]. *)
Definition zero : Event := mkEvent "" "" "" time.zero None.

Definition set_ID (v : string) (e : Event) : Event :=
  mkEvent v (Type_ e) (Source e) (Timestamp e) (Payload e).
Definition set_Type (v : string) (e : Event) : Event :=
  mkEvent (ID e) v (Source e) (Timestamp e) (Payload e).
Definition set_Source (v : string) (e : Event) : Event :=
  mkEvent (ID e) (Type_ e) v (Timestamp e) (Payload e).
Definition set_Timestamp (v : time.Time) (e : Event) : Event :=
  mkEvent (ID e) (Type_ e) (Source e) v (Payload e).
Definition set_Payload (v : option json.Value) (e : Event) : Event :=
  mkEvent (ID e) (Type_ e) (Source e) (Timestamp e) v.

(** [func (e Event) Validate() error] *)
Definition Validate (e : Event) : option error :=
  if String.eqb (strings.TrimSpace (ID e)) "" then
    Some (errors_New "ID is required.")
  else if String.eqb (strings.TrimSpace (Type_ e)) "" then
    Some (errors_New "Type is required.")
  else if String.eqb (strings.TrimSpace (Source e)) "" then
    Some (errors_New "Source is required.")
  else None.

End model.

(** ** Package encoding/json: storing a value into a struct *)

Module jsonfields.

(** The outcome of storing one JSON value into a field: stored; a type
    mismatch, which the decoder records ([saveError]) before it carries
    on; or an error that ends the decoding at once (an [UnmarshalJSON]
    method failed). *)
Inductive stored (T : Type) : Type :=
| Stored (t : T)
| Saved (err : error)
| Failed (err : error).
Arguments Stored {T} t.
Arguments Saved {T} err.
Arguments Failed {T} err.

(** An exported field of a struct [T]: its Go name, the name in its
    [json:"..."] tag (empty when there is no tag), and how a JSON value
    is stored into it. *)
Record StructField (T : Type) : Type := mkField {
  Name : string;
  Tag : string;
  Store : json.Value -> T -> stored T
}.
Arguments mkField {T} Name Tag Store.
Arguments Name {T} s.
Arguments Tag {T} s.
Arguments Store {T} s v t.

Section Fields.
Context {T : Type}.

Definition tagged (f : StructField T) : bool := negb (String.eqb (Tag f) "").

(** The JSON key of a field: the tag's name, the Go name without one. *)
Definition jsonName (f : StructField T) : string :=
  if tagged f then Tag f else Name f.

(** Whether [f] is the field that answers to its JSON key.  Among the
    fields of one struct (all at the same depth) that share a key,
    encoding/json considers only the tagged ones; if exactly one is
    left it is selected, and otherwise all of them are dropped, with
    no error ([dominantField]). *)
Definition dominant (fs : list (StructField T)) (f : StructField T) : bool :=
  let same := filter (fun g => String.eqb (jsonName g) (jsonName f) = true) fs in
  match same with
  | [_] => true
  | _ => tagged f && (length (filter (fun g => tagged g = true) same) =? 1)%nat
  end.

(** [typeFields]: the fields that take part in encoding and decoding. *)
Definition typeFields (fs : list (StructField T)) : list (StructField T) :=
  filter (fun f => dominant fs f = true) fs.

(** The field for an object key: an exact match, else a match under
    [foldName]. *)
Definition findField (fields : list (StructField T)) (key : string)
    : option (StructField T) :=
  match List.find (fun f => String.eqb (jsonName f) key) fields with
  | Some f => Some f
  | None =>
    List.find (fun f => String.eqb (jsonstr.foldName (jsonName f))
                                   (jsonstr.foldName key)) fields
  end.

Definition firstError (saved : option error) (err : error) : option error :=
  match saved with
  | Some e => Some e
  | None => Some err
  end.

(** The loop of [decodeState.object] over the members of an object,
    for a struct target.  [saved] is [d.savedError]. *)
Fixpoint storeMembers (fields : list (StructField T)) (disallowUnknownFields : bool)
    (ms : list (string * json.Value)) (t : T) (saved : option error)
    : error + (T * option error) :=
  match ms with
  | [] => inr (t, saved)
  | (rawKey, v) :: ms' =>
    match jsonstr.unquote rawKey with
    | None => inl (errors_New "JSON decoder out of sync - data changing underfoot?")
    | Some key =>
      match findField fields key with
      | Some f =>
        match Store f v t with
        | Stored t' => storeMembers fields disallowUnknownFields ms' t' saved
        | Saved err =>
          storeMembers fields disallowUnknownFields ms' t (firstError saved err)
        | Failed err => inl err
        end
      | None =>
        storeMembers fields disallowUnknownFields ms' t
          (if disallowUnknownFields
           then firstError saved (json_UnknownField key) else saved)
      end
    end
  end.

(** [decodeState.unmarshal] into a struct value described by
    [fields]; [typeName] is the Go type, for error texts. *)
Definition unmarshal (typeName : string) (fields : list (StructField T))
    (disallowUnknownFields : bool) (v : json.Value) (t : T) : error + T :=
  let mismatch kind :=
    inl (json_UnmarshalTypeError kind ("value of type " +:+ typeName)) in
  match v with
  | json.Null => inr t
  | json.Object ms =>
    match storeMembers fields disallowUnknownFields ms t None with
    | inl err => inl err
    | inr (_, Some err) => inl err
    | inr (t', None) => inr t'
    end
  | json.Array _ => mismatch "array"
  | json.Str _ => mismatch "string"
  | json.Number _ => mismatch "number"
  | json.Bool _ => mismatch "bool"
  end.

End Fields.

Definition kindOf (v : json.Value) : string :=
  match v with
  | json.Null => "null"
  | json.Bool _ => "bool"
  | json.Number _ => "number"
  | json.Str _ => "string"
  | json.Array _ => "array"
  | json.Object _ => "object"
  end.

(** Storing into a field of type [string]. *)
Definition storeString {T} (target : string) (set : string -> T -> T)
    (v : json.Value) (t : T) : stored T :=
  match v with
  | json.Null => Stored t
  | json.Str raw =>
    match jsonstr.unquote raw with
    | Some s => Stored (set s t)
    | None => Failed (errors_New "JSON decoder out of sync - data changing underfoot?")
    end
  | _ => Saved (json_UnmarshalTypeError (kindOf v)
                  ("struct field " +:+ target +:+ " of type string"))
  end.

(** Storing into a field of type [time.Time], which has an
    [UnmarshalJSON] method: [null] is ignored, a JSON string is parsed
    by [parse] (the time package's reading of RFC 3339, applied to the
    text between the quotes), anything else is an error. *)
Definition storeTime {T} (parse : string -> error + time.Time)
    (set : time.Time -> T -> T) (v : json.Value) (t : T) : stored T :=
  match v with
  | json.Null => Stored t
  | json.Str raw =>
    match parse raw with
    | inr tm => Stored (set tm t)
    | inl err => Failed err
    end
  | _ => Failed (errors_New "Time.UnmarshalJSON: input is not a JSON string")
  end.

(** The first number literal of a value that [outOfRange] rejects. *)
Fixpoint badNumber (outOfRange : string -> bool) (v : json.Value) : option string :=
  match v with
  | json.Number lit => if outOfRange lit then Some lit else None
  | json.Array l =>
    (fix go (l : list json.Value) : option string :=
       match l with
       | [] => None
       | x :: l' =>
         match badNumber outOfRange x with
         | Some lit => Some lit
         | None => go l'
         end
       end) l
  | json.Object ms =>
    (fix go (ms : list (string * json.Value)) : option string :=
       match ms with
       | [] => None
       | (_, x) :: ms' =>
         match badNumber outOfRange x with
         | Some lit => Some lit
         | None => go ms'
         end
       end) ms
  | _ => None
  end.

(** Storing into a field of type [any]: every JSON value fits.  Numbers
    become [float64]; a literal outside its range ([outOfRange]) is
    recorded as a type mismatch.  The value is kept as read. *)
Definition storeAny {T} (outOfRange : string -> bool) (target : string)
    (set : option json.Value -> T -> T) (v : json.Value) (t : T) : stored T :=
  match badNumber outOfRange v with
  | Some lit => Saved (json_UnmarshalTypeError ("number " +:+ lit)
                         ("struct field " +:+ target +:+ " of type float64"))
  | None =>
    match v with
    | json.Null => Stored (set None t)
    | _ => Stored (set (Some v) t)
    end
  end.

End jsonfields.

(** ** Package io and net/http: the request and the response *)

Module http.

Definition StatusOK : Z := 200.
Definition StatusAccepted : Z := 202.
Definition StatusBadRequest : Z := 400.
Definition StatusRequestEntityTooLarge : Z := 413.

(** A [http.ResponseWriter]: the header map, the status code once
    written, and what has been written to the body. *)
Inductive Chunk : Type :=
| Text (s : string)
| JSON (m : gmap string string).

Record ResponseWriter : Type := mkResponse {
  Header : gmap string string;
  StatusCode : option Z;
  Written : list Chunk
}.

Definition newResponse : ResponseWriter := mkResponse ∅ None [].

(** [w.Header().Set(key, value)] *)
Definition Header_Set (key value : string) (w : ResponseWriter) : ResponseWriter :=
  mkResponse (<[key := value]> (Header w)) (StatusCode w) (Written w).

(** [w.WriteHeader(code)]: only the first call counts. *)
Definition WriteHeader (code : Z) (w : ResponseWriter) : ResponseWriter :=
  match StatusCode w with
  | None => mkResponse (Header w) (Some code) (Written w)
  | Some _ => w
  end.

(** [w.Write]: writes [StatusOK] first if no status was written. *)
Definition Write (c : Chunk) (w : ResponseWriter) : ResponseWriter :=
  let w := WriteHeader StatusOK w in
  mkResponse (Header w) (StatusCode w) (Written w ++ [c]).

(** [json.NewEncoder(w).Encode(m)] for a [map[string]any] of strings:
    the body receives the JSON object with these members. *)
Definition Encode (m : gmap string string) (w : ResponseWriter) : ResponseWriter :=
  Write (JSON m) w.

(** What a reader delivers: these bytes, then this error ([io_EOF] at
    the end of the data).  The chunks in which the bytes arrive are not
    the program's to choose: [ahead] says whether a consumer that reads
    through a buffer is handed the end of the reader before it needs
    it. *)
Record Reader : Type := mkReader { data : string; readErr : error; ahead : bool }.

(** A request body: all of its bytes, then end of file. *)
Definition bodyReader (body : string) (ahead : bool) : Reader :=
  mkReader body io_EOF ahead.

(** The first [n] bytes of [s], and whether [s] is longer than that. *)
Fixpoint readLimited (n : N) (s : string) : string * bool :=
  match s with
  | EmptyString => (EmptyString, false)
  | String c s' =>
    if n =? 0 then (EmptyString, true)
    else let '(p, more) := readLimited (N.pred n) s' in (String c p, more)
  end.

(** [http.MaxBytesReader(w, r, n)]: like [r], but when [r] holds more
    than [n] bytes, reading ends after [n] bytes with a
    [*http.MaxBytesError].  The reader keeps [w]: see [delivered]. *)
Definition MaxBytesReader (r : Reader) (n : N) : Reader :=
  let '(p, more) := readLimited n (data r) in
  if more then mkReader p (http_MaxBytesError n) (ahead r)
  else mkReader p (readErr r) (ahead r).

(** [requestTooLarge] of the server's response: the connection is to be
    closed after the reply, which the header says if it is not out yet. *)
Definition requestTooLarge (w : ResponseWriter) : ResponseWriter :=
  match StatusCode w with
  | None => Header_Set "Connection" "close" w
  | Some _ => w
  end.

(** What the final error of the body's reader does to the response
    writer at the moment it is delivered: a [MaxBytesReader] that hits
    its limit calls [requestTooLarge] on the writer it was made with. *)
Definition delivered (e : error) (w : ResponseWriter) : ResponseWriter :=
  match e with
  | http_MaxBytesError _ => requestTooLarge w
  | _ => w
  end.

Record Request : Type := mkRequest {
  Method : string;
  Path : string;
  Body : string
}.

(** A ServeMux pattern of the form [METHOD /path], split at its space. *)
Fixpoint splitPattern (pattern : string) : string * string :=
  match pattern with
  | EmptyString => (EmptyString, EmptyString)
  | String c rest =>
    if Ascii.eqb c " " then (EmptyString, rest)
    else let '(method, path) := splitPattern rest in (String c method, path)
  end.

(** Whether the ServeMux hands a request to the handler of such a
    pattern (no wildcard, no trailing slash): the path is the pattern's
    and so is the method, a pattern for GET taking HEAD as well. *)
Definition matches (pattern : string) (r : Request) : bool :=
  let '(method, path) := splitPattern pattern in
  String.eqb path (Path r) &&
  (String.eqb method (Method r) ||
   (String.eqb method "GET" && String.eqb (Method r) "HEAD")).

End http.

(** ** Package encoding/json: the stream decoder *)

Module decoder.

(** A [json.Decoder]: the input not yet consumed, the error its reader
    ends with, whether its reads run ahead of its needs, and the
    [DisallowUnknownFields] switch. *)
Record Decoder : Type := mkDecoder {
  buf : string;
  err : error;
  ahead : bool;
  disallowUnknownFields : bool
}.

Definition NewDecoder (r : http.Reader) : Decoder :=
  mkDecoder (http.data r) (http.readErr r) (http.ahead r) false.

Definition DisallowUnknownFields (dec : Decoder) : Decoder :=
  mkDecoder (buf dec) (err dec) (ahead dec) true.

Definition atEOF (dec : Decoder) : bool :=
  match err dec with
  | io_EOF => true
  | _ => false
  end.

Definition isContainer (v : json.Value) : bool :=
  match v with
  | json.Array _ | json.Object _ => true
  | _ => false
  end.

Definition isEmpty (s : string) : bool :=
  match s with
  | EmptyString => true
  | _ => false
  end.

(** The decoder has used up its input and asks its reader for more: the
    reader's error is delivered. *)
Definition exhausted (dec : Decoder) (w : http.ResponseWriter) : http.ResponseWriter :=
  http.delivered (err dec) w.

(** The decoder found what it was after within its input.  Its buffered
    reads may still have reached the end of the reader. *)
Definition satisfied (dec : Decoder) (w : http.ResponseWriter) : http.ResponseWriter :=
  match err dec with
  | http_MaxBytesError _ => if ahead dec then http.requestTooLarge w else w
  | _ => w
  end.

(** [Decoder.Decode] into a struct.  The decoder reads on until the
    value is complete.  An array or object is complete at its closing
    bracket; any other value needs the byte after it, or the end of the
    input.  If the reader fails first, its error is returned, and at the
    end of the input the result is [io.EOF] (nothing but white space) or
    [io.ErrUnexpectedEOF].  The response writer [w] is the one the
    reader of the body was made with. *)
Definition Decode {T} (typeName : string) (fields : list (jsonfields.StructField T))
    (dec : Decoder) (w : http.ResponseWriter) (t : T)
    : (error + T) * Decoder * http.ResponseWriter :=
  let rest (s : string) := mkDecoder s (err dec) (ahead dec) (disallowUnknownFields dec) in
  if isEmpty (json.skipSpace (buf dec)) then
    (inl (err dec), rest EmptyString, exhausted dec w)
  else
    match json.readValue (buf dec) with
    | json.Scanned v s =>
      if negb (isContainer v) && isEmpty s && negb (atEOF dec) then
        (inl (err dec), rest EmptyString, exhausted dec w)
      else
        (jsonfields.unmarshal typeName fields (disallowUnknownFields dec) v t,
         rest s,
         if negb (isContainer v) && isEmpty s then exhausted dec w else satisfied dec w)
    | json.NeedMore =>
      (inl (if atEOF dec then io_ErrUnexpectedEOF else err dec),
       rest EmptyString, exhausted dec w)
    | json.Invalid c context =>
      (inl (json_SyntaxError c context), rest EmptyString, satisfied dec w)
    | json.OutOfFuel => (inl io_ErrUnexpectedEOF, rest EmptyString, exhausted dec w)
    end.

(** [Decoder.More]: there is another element in the current array or
    object, or at top level another byte that is not white space; a
    closing bracket counts as none. *)
Definition More (dec : Decoder) (w : http.ResponseWriter) : bool * http.ResponseWriter :=
  match json.skipSpace (buf dec) with
  | EmptyString => (false, exhausted dec w)
  | String c _ => (negb (json.isByte c "]" || json.isByte c "}"), satisfied dec w)
  end.

End decoder.

(** ** Package log *)

Module log.

(** An argument of a [Printf] call: a string, or a time formatted with
    [Format(time.RFC3339)]. *)
Inductive Arg : Type :=
| ArgString (s : string)
| ArgRFC3339 (t : time.Time).

Record Line : Type := mkLine { format : string; args : list Arg }.

(** A [*log.Logger], seen as the lines it has written so far. *)
Definition Logger : Type := list Line.

Definition Printf (l : Logger) (format : string) (args : list Arg) : Logger :=
  l ++ [mkLine format args].

End log.

(** ** The handler (internal/handler)

    What the program takes from its surroundings and from parts of the
    Go library that are left open here: how the time package reads an
    RFC 3339 text ([time_Parse], used by [time.Time]'s [UnmarshalJSON]),
    which number literals lie outside [float64] ([float64_outOfRange]),
    and whether the body of a request arrives in such chunks that the
    decoder's buffered reads run ahead of its needs ([readsAhead]).  The
    reading of the clock, [time.Now()], is an argument of the handler. *)

Record Runtime : Type := mkRuntime {
  time_Parse : string -> error + time.Time;
  float64_outOfRange : string -> bool;
  readsAhead : http.Request -> bool
}.

Section Handler.

Variable rt : Runtime.

(** The fields of [model.Event] with their struct tags
    (event.go, lines 14-18): every field carries the tag [json:"id"]. *)
Definition Event_fields : list (jsonfields.StructField model.Event) :=
  [ jsonfields.mkField "ID" "id"
      (jsonfields.storeString "Event.id" model.set_ID);
    jsonfields.mkField "Type" "id"
      (jsonfields.storeString "Event.id" model.set_Type);
    jsonfields.mkField "Source" "id"
      (jsonfields.storeString "Event.id" model.set_Source);
    jsonfields.mkField "Timestamp" "id"
      (jsonfields.storeTime (time_Parse rt) model.set_Timestamp);
    jsonfields.mkField "Payload" "id"
      (jsonfields.storeAny (float64_outOfRange rt) "Event.id" model.set_Payload) ].

(** [dec.Decode(&evt)] for [evt] of type [model.Event]. *)
Definition Decode_Event (dec : decoder.Decoder) (w : http.ResponseWriter)
    (evt : model.Event)
    : (error + model.Event) * decoder.Decoder * http.ResponseWriter :=
  decoder.Decode "model.Event" (jsonfields.typeFields Event_fields) dec w evt.

(** [type EventHandler struct { Logger *log.Logger }] *)
Record EventHandler : Type := mkHandler { Logger : log.Logger }.

Definition NewEventHandler (logger : log.Logger) : EventHandler :=
  mkHandler logger.

(** [httpError]: a consistent JSON error shape. *)
Definition httpError (w : http.ResponseWriter) (status : Z) (message : string)
    (err : error) : http.ResponseWriter :=
  let w := http.Header_Set "Content-Type" "application/json" w in
  let w := http.WriteHeader status w in
  http.Encode {[ "error" := message; "details" := Error err ]} w.

(** [handleHealth]: a simple liveness endpoint. *)
Definition handleHealth (h : EventHandler) (w : http.ResponseWriter)
    (r : http.Request) (now : time.Time) : EventHandler * http.ResponseWriter :=
  let w := http.WriteHeader http.StatusOK w in
  (h, http.Write (http.Text "ok") w).

(** Lines 82-84 of [handlePostEvent]:
    [if evt.Timestamp.IsZero() { evt.Timestamp = time.Now().UTC() }]. *)
Definition defaultTimestamp (evt : model.Event) (now : time.Time) : model.Event :=
  if time.IsZero (model.Timestamp evt)
  then model.set_Timestamp (time.UTC now) evt
  else evt.

(** Lines 86-109 of [handlePostEvent]: validation, the log line and the
    reply, for the event [evt] as it stands after defaulting. *)
Definition validateAndReply (h : EventHandler) (w : http.ResponseWriter)
    (evt : model.Event) : EventHandler * http.ResponseWriter :=
  match model.Validate evt with
  | Some err => (h, httpError w http.StatusBadRequest "validation failed" err)
  | None =>
    let h := mkHandler
      (log.Printf (Logger h) "event accepted: id=%s type=%s source=%s ts=%s"
         [ log.ArgString (model.ID evt);
           log.ArgString (model.Type_ evt);
           log.ArgString (model.Source evt);
           log.ArgRFC3339 (model.Timestamp evt) ]) in
    let w := http.Header_Set "Content-Type" "application/json" w in
    let w := http.WriteHeader http.StatusAccepted w in
    (h, http.Encode {[ "status" := "accepted"; "id" := model.ID evt ]} w)
  end.

(** [handlePostEvent]: accepts an event payload, validates it, and logs
    it.  The reader made by [MaxBytesReader] holds [w], so [w] goes
    through the two calls that read the body, [Decode] and [More]. *)
Definition handlePostEvent (h : EventHandler) (w : http.ResponseWriter)
    (r : http.Request) (now : time.Time) : EventHandler * http.ResponseWriter :=
  let body :=
    http.MaxBytesReader (http.bodyReader (http.Body r) (readsAhead rt r))
                        (N.shiftl 1 20) in
  let dec := decoder.NewDecoder body in
  let dec := decoder.DisallowUnknownFields dec in
  match Decode_Event dec w model.zero with
  | (inl err, _, w) =>
    (h, httpError w http.StatusBadRequest "invalid JSON payload" err)
  | (inr evt, dec, w) =>
    let '(more, w) := decoder.More dec w in
    if more then
      (h, httpError w http.StatusBadRequest "unexpected extra JSON content"
            (errors_New "multiple JSON values"))
    else
      let evt := defaultTimestamp evt now in
      validateAndReply h w evt
  end.

Definition HandlerFunc : Type :=
  EventHandler -> http.ResponseWriter -> http.Request -> time.Time ->
  EventHandler * http.ResponseWriter.

(** [Register]: the patterns wired into the ServeMux. *)
Definition Register : list (string * HandlerFunc) :=
  [ ("POST /events", handlePostEvent);
    ("GET /health", handleHealth) ].

(** The server's treatment of one request: the handler registered for
    its method and path runs on a fresh response writer.  A request
    that matches no pattern is answered by the ServeMux itself (not
    found, method not allowed, a redirect to the clean path) and reaches
    no handler ([None]). *)
Definition serve (h : EventHandler) (r : http.Request) (now : time.Time)
    : EventHandler * option http.ResponseWriter :=
  match List.find (fun p => http.matches (fst p) r) Register with
  | Some (_, f) => let '(h', w) := f h http.newResponse r now in (h', Some w)
  | None => (h, None)
  end.

(** A history of requests, each with the clock reading at its arrival,
    served one after the other. *)
Fixpoint serveAll (h : EventHandler) (history : list (http.Request * time.Time))
    : EventHandler :=
  match history with
  | [] => h
  | (r, now) :: rest => serveAll (fst (serve h r now)) rest
  end.

End Handler.

(** * Specification-side vocabulary *)

(** The runes of a byte string, read front to back as Go's [range] does
    (an ill-formed byte reads as U+FFFD). *)
Fixpoint runes_from (fuel : nat) (s : bytes) : list N :=
  match fuel with
  | O => []
  | S fuel' =>
    match s with
    | [] => []
    | _ :: _ =>
      let '(r, size) := utf8.DecodeRuneInString s in
      r :: runes_from fuel' (drop size s)
    end
  end.

Definition runes (s : string) : list N :=
  runes_from (String.length s) (to_bytes s).

(** A string is blank when it is empty or consists of white space only. *)
Definition isBlank (s : string) : bool := forallb unicode.IsSpace (runes s).

(** The three required fields, in the order [Validate] looks at them, and
    the error reported for each. *)
Inductive RequiredField : Type := FieldID | FieldType | FieldSource.

Definition fieldOf (f : RequiredField) (e : model.Event) : string :=
  match f with
  | FieldID => model.ID e
  | FieldType => model.Type_ e
  | FieldSource => model.Source e
  end.

Definition MissingField (f : RequiredField) : error :=
  match f with
  | FieldID => errors_New "ID is required."
  | FieldType => errors_New "Type is required."
  | FieldSource => errors_New "Source is required."
  end.

(** The first blank field in the order id, type, source. *)
Definition firstOffending (e : model.Event) : option RequiredField :=
  List.find (fun f => isBlank (fieldOf f e)) [FieldID; FieldType; FieldSource].

(** [n] space characters. *)
Fixpoint padding (n : nat) : string :=
  match n with
  | O => EmptyString
  | S n' => String " " (padding n')
  end.

(** The body [{"id":"e1","type":"click","source":"web"}]. *)
Definition clickBody : string :=
  "{" +:+ dquote +:+ "id" +:+ dquote +:+ ":" +:+ dquote +:+ "e1" +:+ dquote
  +:+ "," +:+ dquote +:+ "type" +:+ dquote +:+ ":" +:+ dquote +:+ "click" +:+ dquote
  +:+ "," +:+ dquote +:+ "source" +:+ dquote +:+ ":" +:+ dquote +:+ "web" +:+ dquote
  +:+ "}".

Definition postEvents (body : string) : http.Request :=
  http.mkRequest "POST" "/events" body.

Definition getHealth : http.Request := http.mkRequest "GET" "/health" "".

(** The reply [httpError] writes to a fresh response writer. *)
Definition errorReply (status : Z) (message details : string) : http.ResponseWriter :=
  http.mkResponse {[ "Content-Type" := "application/json" ]} (Some status)
    [http.JSON {[ "error" := message; "details" := details ]}].

(** The same reply when the reader of the body has hit its limit before
    the reply was written. *)
Definition closingErrorReply (status : Z) (message details : string)
    : http.ResponseWriter :=
  http.mkResponse {[ "Connection" := "close"; "Content-Type" := "application/json" ]}
    (Some status)
    [http.JSON {[ "error" := message; "details" := details ]}].

(** A response writer nothing has been written to yet. *)
Definition untouched (w : http.ResponseWriter) : Prop :=
  http.StatusCode w = None /\ http.Written w = [].

(** The shape of an error reply: the status, the JSON object
    [{error, details}] as the body, and the JSON content type. *)
Definition repliesError (w : http.ResponseWriter) (status : Z)
    (message details : string) : Prop :=
  http.StatusCode w = Some status /\
  http.Written w = [http.JSON {[ "error" := message; "details" := details ]}] /\
  http.Header w !! "Content-Type" = Some "application/json".

(** The shape of the reply that accepts the event with this id. *)
Definition repliesAccepted (w : http.ResponseWriter) (id : string) : Prop :=
  http.StatusCode w = Some http.StatusAccepted /\
  http.Written w = [http.JSON {[ "status" := "accepted"; "id" := id ]}] /\
  http.Header w !! "Content-Type" = Some "application/json".

(** The reply that accepts the event with this id, on a fresh writer. *)
Definition acceptedReply (id : string) : http.ResponseWriter :=
  http.mkResponse {[ "Content-Type" := "application/json" ]} (Some http.StatusAccepted)
    [http.JSON {[ "status" := "accepted"; "id" := id ]}].

(** The body exceeds the handler's limit of 1 MiB. *)
Definition exceedsLimit (body : string) : Prop :=
  (N.shiftl 1 20 < N.of_nat (String.length body))%N.

(** The decoder [handlePostEvent] sets up for a request. *)
Definition decoderFor (rt : Runtime) (r : http.Request) : decoder.Decoder :=
  decoder.DisallowUnknownFields
    (decoder.NewDecoder
       (http.MaxBytesReader (http.bodyReader (http.Body r) (readsAhead rt r))
                            (N.shiftl 1 20))).

(** The three kinds of body the specification calls a decode error. *)
Definition malformed (body : string) : Prop :=
  match json.readValue body with
  | json.Scanned _ _ => False
  | _ => True
  end.

Definition hasUnknownField (known : list string) (body : string) : Prop :=
  exists ms rest rawKey key v,
    json.readValue body = json.Scanned (json.Object ms) rest /\
    In (rawKey, v) ms /\ jsonstr.unquote rawKey = Some key /\ ~ In key known.

Definition hasTrailingContent (body : string) : Prop :=
  exists v rest,
    json.readValue body = json.Scanned v rest /\ json.skipSpace rest <> EmptyString.

(** The outcome [r] of scanning [s] is not a lack of fuel, and what it
    leaves is shorter than [s]. *)
Definition consumes {A} (r : json.scanned A) (s : string) : Prop :=
  r <> json.OutOfFuel /\
  forall a rest,
    r = json.Scanned a rest -> (String.length rest < String.length s)%nat.

(** The field names the specification gives the event envelope. *)
Definition specFields : list string := ["id"; "type"; "source"; "timestamp"; "payload"].

(** The log line written for an accepted event. *)
Definition acceptedLine (evt : model.Event) : log.Line :=
  log.mkLine "event accepted: id=%s type=%s source=%s ts=%s"
    [ log.ArgString (model.ID evt);
      log.ArgString (model.Type_ evt);
      log.ArgString (model.Source evt);
      log.ArgRFC3339 (model.Timestamp evt) ].

(** Sample values: a handler that has logged nothing yet, and a clock
    reading (2024-01-01 00:00:00 UTC, in the server's local zone). *)
Definition freshHandler : EventHandler := NewEventHandler [].
Definition sampleNow : time.Time := time.mkTime 63839664000 0 time.LocLocal.

(** Sample bodies: the click event with a field the envelope does not
    have, two click events one after the other, an object that is never
    closed, and 2 MiB of padding. *)
Definition bogusBody : string :=
  "{" +:+ dquote +:+ "id" +:+ dquote +:+ ":" +:+ dquote +:+ "e1" +:+ dquote
  +:+ "," +:+ dquote +:+ "type" +:+ dquote +:+ ":" +:+ dquote +:+ "click" +:+ dquote
  +:+ "," +:+ dquote +:+ "source" +:+ dquote +:+ ":" +:+ dquote +:+ "web" +:+ dquote
  +:+ "," +:+ dquote +:+ "bogus" +:+ dquote +:+ ":true}".
Definition twoEvents : string := clickBody +:+ clickBody.
Definition unclosedBody : string := "{" +:+ dquote +:+ "id" +:+ dquote +:+ ":".
Definition twoMiB : string := padding (N.to_nat 2097152).

(** * The replies as text

    The handler models above keep a JSON reply as the map it was made
    from.  This part adds the text the encoder writes for it, and the
    vocabulary of the further properties at the end of the file. *)

(** ** Package encoding/json: the encoder

    What [json.NewEncoder(w).Encode(m)] writes for a map of strings:
    the object with its keys in sorted order, every string escaped by
    [appendString] (with HTML escaping, the encoder's default), and a
    final newline. *)

Module jsonenc.

(** [htmlSafeSet]: the ASCII bytes that are written as they are. *)
Definition htmlSafeSet (b : N) : bool :=
  (0x20 <=? b) && (b <? 0x80)
  && negb ((b =? 34) || (b =? 92) || (b =? 60) || (b =? 62) || (b =? 38)).

(** What is written for an ASCII byte outside [htmlSafeSet]. *)
Definition escape (c : ascii) : bytes :=
  let b := byteval c in
  if (b =? 92) || (b =? 34) then ["\"%char; c]
  else if b =? 8 then ["\"; "b"]%char
  else if b =? 12 then ["\"; "f"]%char
  else if b =? 10 then ["\"; "n"]%char
  else if b =? 13 then ["\"; "r"]%char
  else if b =? 9 then ["\"; "t"]%char
  else ["\"; "u"; "0"; "0"]%char ++ [hexDigit (N.shiftr b 4); hexDigit (N.land b 0xF)].

(** The loop of [appendString]: the text written between the quotes.
    Ill-formed UTF-8 is written as [\ufffd]; U+2028 and U+2029 are
    escaped. *)
Fixpoint appendString_from (fuel : nat) (src : bytes) : bytes :=
  match fuel with
  | O => []
  | S fuel' =>
    match src with
    | [] => []
    | c :: t =>
      if byteval c <? utf8.RuneSelf then
        (if htmlSafeSet (byteval c) then [c] else escape c)
          ++ appendString_from fuel' t
      else
        let '(r, size) := utf8.DecodeRuneInString (take utf8.UTFMax src) in
        if (r =? utf8.RuneError) && (size =? 1)%nat then
          ["\"; "u"; "f"; "f"; "f"; "d"]%char ++ appendString_from fuel' (drop size src)
        else if (r =? 0x2028) || (r =? 0x2029) then
          (["\"; "u"; "2"; "0"; "2"]%char ++ [hexDigit (N.land r 0xF)])
            ++ appendString_from fuel' (drop size src)
        else take size src ++ appendString_from fuel' (drop size src)
    end
  end.

Definition quoted (s : string) : string :=
  of_bytes (appendString_from (String.length s) (to_bytes s)).

Definition appendString (s : string) : string := dquote +:+ quoted s +:+ dquote.

(** The entries of a map, sorted by key ([strings.Compare]). *)
Fixpoint insertKey (kv : string * string) (l : list (string * string))
    : list (string * string) :=
  match l with
  | [] => [kv]
  | x :: l' => if String.leb (fst kv) (fst x) then kv :: l else x :: insertKey kv l'
  end.

Definition sortedEntries (m : gmap string string) : list (string * string) :=
  foldr insertKey [] (map_to_list m).

Fixpoint members (l : list (string * string)) : string :=
  match l with
  | [] => EmptyString
  | (k, v) :: l' =>
    appendString k +:+ ":" +:+ appendString v +:+
    match l' with
    | [] => EmptyString
    | _ => "," +:+ members l'
    end
  end.

(** [mapEncoder.encode] for a [map[string]any] whose values are strings. *)
Definition Marshal (m : gmap string string) : string :=
  "{" +:+ members (sortedEntries m) +:+ "}".

(** [Encoder.Encode]: the JSON text, then a newline. *)
Definition Encode (m : gmap string string) : string :=
  Marshal m +:+ String "010" EmptyString.

End jsonenc.

(** The bytes a response writer has been given for the body. *)
Definition chunkText (c : http.Chunk) : string :=
  match c with
  | http.Text s => s
  | http.JSON m => jsonenc.Encode m
  end.

Definition bodyText (w : http.ResponseWriter) : string :=
  foldr (fun c s => chunkText c +:+ s) EmptyString (http.Written w).

(** The line feed [Encode] ends with, and the text of a JSON object
    with two members as the encoder writes it. *)
Definition newline : string := String "010" EmptyString.

Definition object2 (k1 v1 k2 v2 : string) : string :=
  "{" +:+ jsonenc.appendString k1 +:+ ":" +:+ jsonenc.appendString v1 +:+ ","
  +:+ jsonenc.appendString k2 +:+ ":" +:+ jsonenc.appendString v2 +:+ "}".

(** ** Vocabulary for the further properties *)

(** What [Decoder.More] makes of the input left after the first value:
    nothing but white space, or a closing bracket first. *)
Definition endsOrCloses (rest : string) : bool :=
  match json.skipSpace rest with
  | EmptyString => true
  | String c _ => json.isByte c "]" || json.isByte c "}"
  end.

(** The values that decode into an [Event] without naming a field. *)
Definition emptyEnvelope (v : json.Value) : bool :=
  match v with
  | json.Null | json.Object [] => true
  | _ => false
  end.

(** The JSON values that are neither an object nor [null]. *)
Definition wrongKind (v : json.Value) : bool :=
  match v with
  | json.Null | json.Object _ => false
  | _ => true
  end.

(** An ASCII byte that is not white space, and an ASCII white space
    byte (tab, line feed, vertical tab, form feed, carriage return,
    space). *)
Definition asciiNonSpace (c : ascii) : bool :=
  (byteval c <? utf8.RuneSelf) && negb (unicode.IsSpace (byteval c)).

Definition asciiSpace (c : ascii) : bool :=
  ((9 <=? byteval c) && (byteval c <=? 13)) || (byteval c =? 32).

Definition hasNonSpace (s : string) : bool := existsb asciiNonSpace (to_bytes s).
Definition allSpaces (s : string) : bool := forallb asciiSpace (to_bytes s).
Definition isASCII (s : string) : bool :=
  forallb (fun c => byteval c <? utf8.RuneSelf) (to_bytes s).

(** A text of printable ASCII characters (space to tilde). *)
Definition printable (s : string) : bool :=
  forallb (fun c => (32 <=? byteval c) && (byteval c <? 127)) (to_bytes s).

(** [b] is what a string literal holds between its quotes: read from
    the opening quote on, the scanner takes it whole and stops at the
    closing quote. *)
Definition quotedText (b : bytes) : Prop :=
  json.scanString json.InString (of_bytes (b ++ ["034"%char])) =
  json.Scanned (of_bytes b) EmptyString.

(** The scanner, in a string literal, takes the text [p] and is in a
    string literal again. *)
Definition passes (p : bytes) : Prop :=
  forall y raw rest,
    json.scanString json.InString y = json.Scanned raw rest ->
    json.scanString json.InString (of_bytes p +:+ y) =
    json.Scanned (of_bytes p +:+ raw) rest.

(** * Properties *)

(** ** Blank strings

    [strings.TrimSpace] scans from both ends, forwards with
    [DecodeRuneInString] and backwards with [DecodeLastRuneInString].
    On ill-formed UTF-8 the two may cut the bytes differently, but the
    result is empty in exactly one case: every rune read from the front
    is white space. *)

Section Blank.

Local Open Scope N_scope.

Lemma first_multi b sz lo hi :
  utf8.first b = utf8.LeadMulti sz lo hi -> (sz = 2 \/ sz = 3 \/ sz = 4)%nat.
Proof.
  unfold utf8.first.
  repeat match goal with |- context [if ?c then _ else _] => destruct c end;
    intros H; inversion H; auto.
Qed.

Lemma DecodeRune_size s :
  s <> [] ->
  (1 <= snd (utf8.DecodeRuneInString s) <= length s)%nat /\
  (snd (utf8.DecodeRuneInString s) <= 4)%nat.
Proof.
  intros Hs. unfold utf8.DecodeRuneInString.
  destruct s as [|c0 t0]; [congruence|].
  destruct (utf8.first (byteval c0)); simpl; try lia.
  destruct (_ <? _)%nat; simpl; [lia|].
  destruct t0 as [|c1 t1]; simpl; [lia|].
  destruct (utf8.outside _ _ _); simpl; [lia|].
  destruct (_ <=? _)%nat; simpl; [lia|].
  destruct t1 as [|c2 t2]; simpl; [lia|].
  destruct (utf8.outside _ _ _); simpl; [lia|].
  destruct (_ <=? _)%nat; simpl; [lia|].
  destruct t2 as [|c3 t3]; simpl; [lia|].
  destruct (utf8.outside _ _ _); simpl; lia.
Qed.

Lemma IsSpace_RuneError : unicode.IsSpace utf8.RuneError = false.
Proof. reflexivity. Qed.

(** Closes a branch of [DecodeRuneInString] in which both decodings agree
    or the rune read is U+FFFD. *)
Ltac decode_branch :=
  let H := fresh in intros H; cbn beta iota in H; first [exact H | exfalso; inversion H; congruence | exfalso; inversion H; lia ].

Lemma DecodeRune_prefix s m r :
  utf8.DecodeRuneInString (take m s) = (r, m) ->
  unicode.IsSpace r = true ->
  utf8.DecodeRuneInString s = (r, m).
Proof.
  intros H Hr.
  assert (Hne : r <> 65533) by (intros ->; discriminate Hr).
  clear Hr.
  destruct m as [|m].
  { rewrite take_0 in H. inversion H. subst. exfalso. apply Hne. reflexivity. }
  destruct s as [|c0 t0]; [inversion H|].
  simpl take in H. revert H. unfold utf8.DecodeRuneInString, utf8.RuneError.
  destruct (utf8.first (byteval c0)) as [| |sz lo hi] eqn:F; try (intros H; exact H).
  apply first_multi in F.
  destruct (length (c0 :: take m t0) <? sz)%nat eqn:L1; [decode_branch|].
  apply Nat.ltb_ge in L1. simpl in L1. 
  destruct m as [|m]; [rewrite take_0; decode_branch|].
  destruct t0 as [|c1 t1]; simpl take; cbn beta iota zeta; [decode_branch|].
  assert ((length (c0 :: c1 :: t1) <? sz)%nat = false) as ->.
  { apply Nat.ltb_ge. simpl in *. rewrite length_take in L1. lia. }
  destruct (utf8.outside lo hi (byteval c1)); [decode_branch|].
  destruct (sz <=? 2)%nat eqn:S2; [intros H; exact H|].
  destruct m as [|m]; [rewrite take_0; decode_branch|].
  destruct t1 as [|c2 t2]; simpl take; cbn beta iota zeta; [decode_branch|].
  destruct (utf8.outside 128 191 (byteval c2)); [decode_branch|].
  destruct (sz <=? 3)%nat eqn:S3; [intros H; exact H|].
  destruct m as [|m]; [rewrite take_0; decode_branch|].
  destruct t2 as [|c3 t3]; simpl take; cbn beta iota zeta; [decode_branch|].
  intros H; exact H.
Qed.

Lemma length_to_bytes s : length (to_bytes s) = String.length s.
Proof. induction s; simpl; congruence. Qed.

Lemma of_bytes_empty b : of_bytes b = "" <-> b = [].
Proof. destruct b; simpl; split; congruence. Qed.

Lemma indexFunc_from_None fuel s f i :
  (length s - i <= fuel)%nat ->
  strings.indexFunc_from fuel s f false i = None <->
  forallb f (runes_from fuel (drop i s)) = true.
Proof.
  revert i. induction fuel as [|fuel IH]; intros i Hf; simpl.
  - tauto.
  - destruct (Nat.leb_spec (length s) i) as [Hi|Hi].
    + rewrite drop_ge by lia. simpl. tauto.
    + destruct (drop i s) as [|c t] eqn:D.
      { apply (f_equal length) in D. rewrite length_drop in D. simpl in D. lia. }
      rewrite <- D.
      pose proof (DecodeRune_size (drop i s)) as Hsz.
      destruct (utf8.DecodeRuneInString (drop i s)) as [r size]. simpl in Hsz.
      rewrite D in Hsz at 1. specialize (Hsz ltac:(discriminate)).
      rewrite length_drop in Hsz.
      simpl. rewrite drop_drop.
      destruct (f r); simpl.
      * apply IH. lia.
      * split; discriminate.
Qed.

Lemma indexFunc_from_Some fuel s f i j :
  strings.indexFunc_from fuel s f false i = Some j ->
  (j < length s)%nat /\ f (fst (utf8.DecodeRuneInString (drop j s))) = false.
Proof.
  revert i. induction fuel as [|fuel IH]; intros i; simpl; [discriminate|].
  destruct (Nat.leb_spec (length s) i) as [Hi|Hi]; [discriminate|].
  destruct (utf8.DecodeRuneInString (drop i s)) as [r size] eqn:D.
  destruct (f r) eqn:Fr; simpl.
  - apply IH.
  - intros H; inversion H; subst. rewrite D. auto.
Qed.

Lemma backUp_le fuel s start lim : (utf8.backUp fuel s start lim <= start)%Z.
Proof.
  revert start. induction fuel as [|fuel IH]; intros start; simpl; [lia|].
  destruct (start <? lim)%Z; [lia|].
  destruct (utf8.RuneStart _); [lia|].
  specialize (IH (start - 1)%Z). lia.
Qed.

Lemma DecodeLast_size t :
  t <> [] -> (1 <= snd (utf8.DecodeLastRuneInString t) <= length t)%nat.
Proof.
  intros Ht. assert (Hl : (0 < length t)%nat) by (destruct t; simpl; [congruence | lia]).
  unfold utf8.DecodeLastRuneInString.
  destruct (Z.eqb_spec (Z.of_nat (length t)) 0) as [E|E]; [lia|].
  destruct (_ <? utf8.RuneSelf); [simpl; lia|].
  pose proof (backUp_le utf8.UTFMax t (Z.of_nat (length t) - 2)
                (Z.max 0 (Z.of_nat (length t) - Z.of_nat utf8.UTFMax))) as Hb.
  set (lim := Z.max 0 (Z.of_nat (length t) - Z.of_nat utf8.UTFMax)) in *.
  set (start := Z.max 0 (utf8.backUp _ _ _ _)) in *.
  assert (Hs : (0 <= start < Z.of_nat (length t))%Z) by lia.
  pose proof (DecodeRune_size (drop (Z.to_nat start) t)) as Hd.
  destruct (utf8.DecodeRuneInString (drop (Z.to_nat start) t)) as [r' size].
  simpl in Hd.
  assert (Hne : drop (Z.to_nat start) t <> []).
  { intros H0. apply (f_equal length) in H0. rewrite length_drop in H0. simpl in H0. lia. }
  specialize (Hd Hne). rewrite length_drop in Hd.
  destruct (Z.eqb_spec (start + Z.of_nat size) (Z.of_nat (length t))); simpl; lia.
Qed.

Lemma first_ascii b : b < 0x80 -> utf8.first b = utf8.LeadASCII.
Proof. intros H. unfold utf8.first. apply N.ltb_lt in H. now rewrite H. Qed.

Lemma DecodeLast_full t r :
  utf8.DecodeLastRuneInString t = (r, length t) ->
  unicode.IsSpace r = true ->
  utf8.DecodeRuneInString t = (r, length t).
Proof.
  unfold utf8.DecodeLastRuneInString. intros H Hr.
  destruct (Z.eqb_spec (Z.of_nat (length t)) 0) as [E|E].
  { inversion H; subst. discriminate Hr. }
  destruct (N.ltb_spec (utf8.byteAt t (Z.of_nat (length t) - 1)) utf8.RuneSelf) as [A|A].
  - inversion H as [[Hb Hl]]. destruct t as [|c [|c' t']]; simpl in Hl; try lia.
    unfold utf8.byteAt in *. simpl in *.
    unfold utf8.DecodeRuneInString. rewrite first_ascii by exact A. reflexivity.
  - set (lim := Z.max 0 (Z.of_nat (length t) - Z.of_nat utf8.UTFMax)) in *.
    set (start := Z.max 0 (utf8.backUp _ _ _ _)) in *.
    destruct (utf8.DecodeRuneInString (drop (Z.to_nat start) t)) as [r' size] eqn:D.
    destruct (Z.eqb_spec (start + Z.of_nat size) (Z.of_nat (length t))) as [S|S].
    + inversion H; subst.
      assert (start = 0%Z) by lia.
      replace (Z.to_nat start) with 0%nat in D by lia. rewrite drop_0 in D. exact D.
    + inversion H; subst. discriminate Hr.
Qed.

Lemma lastIndexFunc_from_None fuel s f i :
  (i <= fuel)%nat -> (i <= length s)%nat ->
  strings.lastIndexFunc_from fuel s f false i = None ->
  i = 0%nat \/
  exists m r, (0 < m <= i)%nat /\
              utf8.DecodeLastRuneInString (take m s) = (r, m) /\ f r = true.
Proof.
  revert i. induction fuel as [|fuel IH]; intros i Hf Hi; simpl.
  - intros _. left. lia.
  - destruct (Nat.eqb_spec i 0) as [->|Hi0]; [auto|].
    pose proof (DecodeLast_size (take i s)) as Hsz.
    destruct (utf8.DecodeLastRuneInString (take i s)) as [r size] eqn:D.
    simpl in Hsz.
    assert (Hne : take i s <> []).
    { intros H0. apply (f_equal length) in H0. rewrite length_take in H0. simpl in H0. lia. }
    specialize (Hsz Hne). rewrite length_take in Hsz.
    destruct (f r) eqn:Fr; simpl; [|discriminate].
    intros H. apply IH in H; [|lia|lia].
    right. destruct H as [H0|(m & r' & Hm & Hd & Hr)].
    + exists i, r. split; [lia|]. split; [|exact Fr].
      rewrite D. f_equal. lia.
    + exists m, r'. split; [lia|]. auto.
Qed.

(** A string trims to the empty string exactly when it is blank. *)
Lemma TrimSpace_blank s : strings.TrimSpace s = "" <-> isBlank s = true.
Proof.
  unfold strings.TrimSpace, isBlank, runes. rewrite of_bytes_empty.
  rewrite <- length_to_bytes. set (b := to_bytes s).
  unfold strings.TrimFunc, strings.TrimLeftFunc.
  pose proof (indexFunc_from_None (length b) b unicode.IsSpace 0 ltac:(lia)) as HN.
  rewrite drop_0 in HN. fold (strings.indexFunc b unicode.IsSpace false) in HN.
  destruct (strings.indexFunc b unicode.IsSpace false) as [i|] eqn:I.
  - split.
    2:{ intros H. apply HN in H. discriminate H. }
    intros H. exfalso.
    apply indexFunc_from_Some in I. destruct I as [Hi Hfirst].
    set (s' := drop i b) in *.
    assert (Hlen : (0 < length s')%nat) by (subst s'; rewrite length_drop; lia).
    unfold strings.TrimRightFunc in H.
    destruct (strings.lastIndexFunc s' unicode.IsSpace false) as [j|] eqn:LI.
    + assert (Hnn : forall n, (0 < n)%nat -> take n s' <> []).
      { intros n Hn H0. apply (f_equal length) in H0. rewrite length_take in H0.
        simpl in H0. lia. }
      destruct (_ <=? _).
      * pose proof (DecodeRune_size (drop j s')) as Hsz.
        destruct (utf8.DecodeRuneInString (drop j s')) as [r wid]. simpl in Hsz.
        destruct j as [|j].
        -- rewrite drop_0 in Hsz.
           assert (s' <> []) by (intros E; rewrite E in Hlen; simpl in Hlen; lia).
           apply (Hnn (0 + wid)%nat); [|exact H]. specialize (Hsz ltac:(assumption)). lia.
        -- apply (Hnn (S j + wid)%nat); [lia | exact H].
      * apply (Hnn (j + 1)%nat); [lia | exact H].
    + apply lastIndexFunc_from_None in LI; [|lia|lia].
      destruct LI as [L0|(m & r & Hm & Hd & Hr)]; [lia|].
      assert (Hlm : length (take m s') = m) by (rewrite length_take; lia).
      rewrite <- Hlm in Hd at 2. apply DecodeLast_full in Hd; [|exact Hr].
      rewrite Hlm in Hd. apply DecodeRune_prefix in Hd; [|exact Hr].
      rewrite Hd in Hfirst. simpl in Hfirst. congruence.
  - split; [intros _; now apply HN | intros _; reflexivity].
Qed.

End Blank.

(** ** The event model *)

Lemma Validate_blank_ID e :
  strings.TrimSpace (model.ID e) = "" ->
  model.Validate e = Some (errors_New "ID is required.").
Proof. intros H. unfold model.Validate. rewrite H. reflexivity. Qed.

Lemma Validate_passes e :
  strings.TrimSpace (model.ID e) <> "" ->
  strings.TrimSpace (model.Type_ e) <> "" ->
  strings.TrimSpace (model.Source e) <> "" ->
  model.Validate e = None.
Proof.
  intros H1 H2 H3. unfold model.Validate.
  apply String.eqb_neq in H1, H2, H3. rewrite H1, H2, H3. reflexivity.
Qed.

(** The test [strings.TrimSpace(x) == ""] of [Validate], as a test for
    blank strings. *)
Lemma trimmed_empty_isBlank s :
  String.eqb (strings.TrimSpace s) "" = isBlank s.
Proof.
  destruct (isBlank s) eqn:B.
  - apply String.eqb_eq, TrimSpace_blank, B.
  - apply String.eqb_neq. intros H. apply TrimSpace_blank in H. congruence.
Qed.

(** [Validate], read off the three required fields. *)
Lemma Validate_firstOffending e :
  model.Validate e = MissingField <$> firstOffending e.
Proof.
  unfold model.Validate, firstOffending. simpl.
  rewrite !trimmed_empty_isBlank.
  destruct (isBlank (model.ID e)); [reflexivity|].
  destruct (isBlank (model.Type_ e)); [reflexivity|].
  destruct (isBlank (model.Source e)); reflexivity.
Qed.

Lemma MissingField_inj f g : MissingField f = MissingField g -> f = g.
Proof. destruct f, g; simpl; intros H; try reflexivity; discriminate H. Qed.

Lemma not_blank_trimmed s : isBlank s = false -> strings.TrimSpace s <> "".
Proof. intros B H. apply TrimSpace_blank in H. congruence. Qed.

(** C2: an event whose id, type and source are not blank (each is
    non-empty once its surrounding white space is trimmed) passes
    validation, whatever its timestamp: replacing the timestamp by any
    other, zero or not, changes nothing. *)
Theorem Validate_accepts_non_blank :
  forall e,
    isBlank (model.ID e) = false ->
    isBlank (model.Type_ e) = false ->
    isBlank (model.Source e) = false ->
    strings.TrimSpace (model.ID e) <> "" /\
    strings.TrimSpace (model.Type_ e) <> "" /\
    strings.TrimSpace (model.Source e) <> "" /\
    model.Validate e = None /\
    (forall ts, model.Validate (model.set_Timestamp ts e) = None).
Proof.
  intros e H1 H2 H3.
  apply not_blank_trimmed in H1, H2, H3.
  repeat split; try assumption.
  - now apply Validate_passes.
  - intros ts. now apply Validate_passes.
Qed.

(** The click event, with a clock reading and with the zero timestamp. *)
Lemma Validate_accepts_non_blank_witness :
  let e := model.mkEvent "e1" "click" "web" sampleNow None in
  (isBlank (model.ID e) = false /\ isBlank (model.Type_ e) = false /\
   isBlank (model.Source e) = false) /\
  model.Validate e = None /\
  model.Validate (model.set_Timestamp time.zero e) = None.
Proof.
  intros e.
  assert (H1 : isBlank (model.ID e) = false) by (vm_compute; reflexivity).
  assert (H2 : isBlank (model.Type_ e) = false) by (vm_compute; reflexivity).
  assert (H3 : isBlank (model.Source e) = false) by (vm_compute; reflexivity).
  split; [auto|].
  destruct (Validate_accepts_non_blank e H1 H2 H3) as (_ & _ & _ & V & T).
  split; [exact V | exact (T time.zero)].
Defined.

(** C3: when at least one of id, type and source is blank, validation
    fails with one error, the one for the first blank field in the order
    id, type, source, and with no other. *)
Theorem Validate_reports_first_blank :
  forall e,
    isBlank (model.ID e) = true \/ isBlank (model.Type_ e) = true \/
    isBlank (model.Source e) = true ->
    exists f,
      firstOffending e = Some f /\
      model.Validate e = Some (MissingField f) /\
      (forall g, model.Validate e = Some (MissingField g) -> g = f).
Proof.
  intros e H. rewrite Validate_firstOffending.
  destruct (firstOffending e) as [f|] eqn:F.
  - exists f. split; [reflexivity|]. split; [reflexivity|].
    simpl. intros g Hg. inversion Hg as [Hm]. symmetry. now apply MissingField_inj.
  - exfalso. unfold firstOffending in F. simpl in F.
    destruct (isBlank (model.ID e)); [discriminate|].
    destruct (isBlank (model.Type_ e)); [discriminate|].
    destruct (isBlank (model.Source e)); [discriminate|].
    destruct H as [H|[H|H]]; discriminate H.
Qed.

(** An event with a blank type and a blank source: the type is reported. *)
Lemma Validate_reports_first_blank_witness :
  let e := model.mkEvent "e1" "  " "" time.zero None in
  (isBlank (model.Type_ e) = true /\ isBlank (model.Source e) = true) /\
  firstOffending e = Some FieldType /\
  model.Validate e = Some (errors_New "Type is required.").
Proof.
  intros e.
  assert (HT : isBlank (model.Type_ e) = true) by (vm_compute; reflexivity).
  assert (HS : isBlank (model.Source e) = true) by (vm_compute; reflexivity).
  split; [split; assumption|].
  destruct (Validate_reports_first_blank e (or_intror (or_introl HT)))
    as (f & Hf & Hv & _).
  assert (Ef : firstOffending e = Some FieldType) by (vm_compute; reflexivity).
  rewrite Ef in Hf. inversion Hf; subst f.
  split; [exact Ef | exact Hv].
Defined.

(** C9: validation reads the id, the type and the source and nothing
    else: two events that agree on these three get the same result, and
    changing the timestamp or the payload of an event changes nothing. *)
Theorem Validate_depends_on_required_fields :
  forall e1 e2,
    model.ID e1 = model.ID e2 ->
    model.Type_ e1 = model.Type_ e2 ->
    model.Source e1 = model.Source e2 ->
    model.Validate e1 = model.Validate e2 /\
    (forall ts payload,
        model.Validate (model.set_Payload payload (model.set_Timestamp ts e1)) =
        model.Validate e2).
Proof.
  intros e1 e2 H1 H2 H3. unfold model.Validate. simpl.
  rewrite H1, H2, H3. split; reflexivity.
Qed.

Lemma Validate_depends_on_required_fields_witness :
  let e1 := model.mkEvent "e1" " " "web" time.zero None in
  let e2 := model.mkEvent "e1" " " "web" sampleNow (Some (json.Array [json.Null])) in
  e1 <> e2 /\ model.Validate e1 = model.Validate e2.
Proof.
  intros e1 e2. split; [discriminate|].
  exact (proj1 (Validate_depends_on_required_fields e1 e2 eq_refl eq_refl eq_refl)).
Defined.

(** ** The JSON reader *)

Section Reader.

Import json.
Local Open Scope nat_scope.

Lemma skipSpace_length s : String.length (skipSpace s) <= String.length s.
Proof.
  induction s as [|c s IH]; simpl; [lia|].
  destruct (isSpace c); simpl; lia.
Qed.

Lemma skipSpace_cons s c rest :
  skipSpace s = String c rest -> String.length rest < String.length s.
Proof.
  intros H. pose proof (skipSpace_length s) as L. rewrite H in L. simpl in L. lia.
Qed.

Lemma smap_Scanned {A B} (f : A -> B) r b rest :
  smap f r = Scanned b rest -> exists a, r = Scanned a rest /\ b = f a.
Proof. destruct r; simpl; intros H; inversion H; eauto. Qed.

Lemma smap_fuel {A B} (f : A -> B) r : smap f r = OutOfFuel -> r = OutOfFuel.
Proof. destruct r; simpl; intros H; inversion H; eauto. Qed.

Lemma scanString_sound st s :
  scanString st s <> OutOfFuel /\
  forall a rest, scanString st s = Scanned a rest -> String.length rest < String.length s.
Proof.
  revert st. induction s as [|c s IH]; intros st; simpl.
  - split; [discriminate|intros ? ? H; discriminate H].
  - destruct st;
      repeat match goal with
             | |- context [if ?b then _ else _] => destruct b
             end;
      (split; [try discriminate; intros H; apply smap_fuel in H; now apply IH in H
              | intros a rest H;
                first [ discriminate H
                      | inversion H; subst; simpl; lia
                      | apply smap_Scanned in H; destruct H as (x & H & _);
                        apply IH in H; simpl; lia ] ]).
Qed.

Lemma scanNumber_sound st s :
  scanNumber st s <> OutOfFuel /\
  forall a rest, scanNumber st s = Scanned a rest -> String.length rest <= String.length s.
Proof.
  revert st. induction s as [|c s IH]; intros st.
  - destruct st; simpl; (split; [discriminate|intros ? ? H; inversion H; simpl; lia]).
  - destruct st; cbn [scanNumber];
      repeat match goal with
             | |- context [if ?b then _ else _] => destruct b
             end;
      (split; [try discriminate; intros H; apply smap_fuel in H; now apply IH in H
              | intros a rest H;
                first [ discriminate H
                      | inversion H; subst; simpl; lia
                      | apply smap_Scanned in H; destruct H as (x & H & _);
                        apply IH in H; simpl; lia ] ]).
Qed.

Lemma scanLiteral_sound name expect s :
  scanLiteral name expect s <> OutOfFuel /\
  forall a rest, scanLiteral name expect s = Scanned a rest ->
                 String.length rest <= String.length s.
Proof.
  revert s. induction expect as [|e expect IH]; intros s; simpl.
  - split; [discriminate|intros ? ? H; inversion H; lia].
  - destruct s as [|c s]; [split; [discriminate|intros ? ? H; discriminate H]|].
    destruct (Ascii.eqb c e); [|split; [discriminate|intros ? ? H; discriminate H]].
    destruct (IH s) as [I1 I2]. split; [exact I1|].
    intros a rest H. apply I2 in H. simpl. lia.
Qed.

Lemma consumes_smap {A B} (f : A -> B) r s : consumes r s -> consumes (smap f r) s.
Proof.
  intros [H1 H2]. split.
  - intros H. now apply smap_fuel in H.
  - intros b rest H. apply smap_Scanned in H. destruct H as (a & H & _). eauto.
Qed.

Lemma consumes_shorter {A} (r : scanned A) s s' :
  consumes r s' -> String.length s' <= String.length s -> consumes r s.
Proof. intros [H1 H2] L. split; [exact H1|]. intros a rest H. apply H2 in H. lia. Qed.

Lemma consumes_NeedMore {A} s : consumes (@NeedMore A) s.
Proof. split; [discriminate|intros ? ? H; discriminate H]. Qed.

Lemma consumes_Invalid {A} c context s : consumes (@Invalid A c context) s.
Proof. split; [discriminate|intros ? ? H; discriminate H]. Qed.

Lemma consumes_Scanned {A} (a : A) rest s :
  String.length rest < String.length s -> consumes (Scanned a rest) s.
Proof. intros L. split; [discriminate|]. intros ? ? H. inversion H; subst. exact L. Qed.

Lemma consumes_string st rest : consumes (scanString st rest) rest.
Proof. apply scanString_sound. Qed.

Lemma consumes_number st c rest : consumes (scanNumber st rest) (String c rest).
Proof.
  destruct (scanNumber_sound st rest) as [H1 H2]. split; [exact H1|].
  intros a r H. apply H2 in H. simpl. lia.
Qed.

Lemma consumes_literal name expect c rest :
  consumes (scanLiteral name expect rest) (String c rest).
Proof.
  destruct (scanLiteral_sound name expect rest) as [H1 H2]. split; [exact H1|].
  intros a r H. apply H2 in H. simpl. lia.
Qed.

(** With fuel for twice the input, the three readers never run out. *)
Lemma scan_fuel fuel :
  (forall depth s, 2 * String.length s + 1 <= fuel ->
                   consumes (scanValue fuel depth s) s) /\
  (forall depth s, 2 * String.length s + 2 <= fuel ->
                   consumes (scanElements fuel depth s) s) /\
  (forall depth s, 2 * String.length s + 2 <= fuel ->
                   consumes (scanMembers fuel depth s) s).
Proof.
  induction fuel as [|fuel (IHV & IHE & IHM)].
  { repeat split; intros; lia. }
  split; [|split]; intros depth s Hf.
  - cbn [scanValue].
    destruct (skipSpace s) as [|c rest] eqn:K; [apply consumes_NeedMore|].
    pose proof (skipSpace_cons _ _ _ K) as L.
    assert (Hsub : forall A (r : scanned A), consumes r (String c rest) -> consumes r s).
    { intros A r Hr. apply (consumes_shorter _ _ _ Hr).
      pose proof (skipSpace_length s) as L'. now rewrite K in L'. }
    destruct (isByte c "{").
    { destruct (_ <? _)%N; [|apply consumes_Invalid].
      destruct (skipSpace rest) as [|c' rest'] eqn:K'; [apply consumes_NeedMore|].
      pose proof (skipSpace_cons _ _ _ K') as L'.
      destruct (isByte c' "}"); [apply consumes_Scanned; lia|].
      apply consumes_smap, (consumes_shorter _ _ rest); [apply IHM|]; lia. }
    destruct (isByte c "[").
    { destruct (_ <? _)%N; [|apply consumes_Invalid].
      destruct (skipSpace rest) as [|c' rest'] eqn:K'; [apply consumes_NeedMore|].
      pose proof (skipSpace_cons _ _ _ K') as L'.
      destruct (isByte c' "]"); [apply consumes_Scanned; lia|].
      apply consumes_smap, (consumes_shorter _ _ rest); [apply IHE|]; lia. }
    destruct (_ =? _)%N.
    { apply consumes_smap, (consumes_shorter _ _ rest); [apply consumes_string|lia]. }
    repeat match goal with
           | |- context [if isByte c ?d then _ else _] => destruct (isByte c d)
           | |- context [if isDigit19 c then _ else _] => destruct (isDigit19 c)
           end;
      first [ apply consumes_Invalid
            | apply consumes_smap, Hsub, consumes_number
            | apply consumes_smap, Hsub, consumes_literal ].
  - cbn [scanElements].
    destruct (IHV depth s ltac:(lia)) as [V1 V2].
    destruct (scanValue fuel depth s) as [v rest| | |] eqn:V;
      [|apply consumes_NeedMore|apply consumes_Invalid|congruence].
    specialize (V2 _ _ eq_refl).
    destruct (skipSpace rest) as [|c rest'] eqn:K; [apply consumes_NeedMore|].
    pose proof (skipSpace_cons _ _ _ K) as L.
    destruct (isByte c ",").
    { apply consumes_smap, (consumes_shorter _ _ rest'); [apply IHE|]; lia. }
    destruct (isByte c "]"); [apply consumes_Scanned; lia | apply consumes_Invalid].
  - cbn [scanMembers].
    destruct (skipSpace s) as [|c rest] eqn:K; [apply consumes_NeedMore|].
    pose proof (skipSpace_cons _ _ _ K) as L.
    destruct (_ =? _)%N; [|apply consumes_Invalid].
    destruct (scanString_sound InString rest) as [S1 S2].
    destruct (scanString InString rest) as [key rest1| | |];
      [|apply consumes_NeedMore|apply consumes_Invalid|congruence].
    specialize (S2 _ _ eq_refl).
    destruct (skipSpace rest1) as [|c1 rest2] eqn:K1; [apply consumes_NeedMore|].
    pose proof (skipSpace_cons _ _ _ K1) as L1.
    destruct (isByte c1 ":"); [|apply consumes_Invalid].
    destruct (IHV depth rest2 ltac:(lia)) as [V1 V2].
    destruct (scanValue fuel depth rest2) as [v rest3| | |] eqn:V;
      [|apply consumes_NeedMore|apply consumes_Invalid|congruence].
    specialize (V2 _ _ eq_refl).
    destruct (skipSpace rest3) as [|c2 rest4] eqn:K3; [apply consumes_NeedMore|].
    pose proof (skipSpace_cons _ _ _ K3) as L3.
    destruct (isByte c2 ",").
    { apply consumes_smap, (consumes_shorter _ _ rest4); [apply IHM|]; lia. }
    destruct (isByte c2 "}"); [apply consumes_Scanned; lia | apply consumes_Invalid].
Qed.

(** [readValue] always comes to a result of its own. *)
Lemma readValue_fuel s : readValue s <> OutOfFuel.
Proof.
  unfold readValue.
  destruct (scan_fuel (S (2 * String.length s))) as (V & _ & _).
  apply (V 0%N s). lia.
Qed.

Lemma readValue_rest s v rest :
  readValue s = Scanned v rest -> String.length rest < String.length s.
Proof.
  unfold readValue.
  destruct (scan_fuel (S (2 * String.length s))) as (V & _ & _).
  apply (V 0%N s). lia.
Qed.

End Reader.

(** ** Decoding into [model.Event] *)

(** All five fields answer to the key [id], all of them tagged: none
    is selected. *)
Lemma typeFields_Event rt : jsonfields.typeFields (Event_fields rt) = [].
Proof. reflexivity. Qed.

(** With no field to store into, the members of an object leave the
    target alone. *)
Lemma storeMembers_no_fields {T} d (ms : list (string * json.Value)) (t : T) saved r :
  jsonfields.storeMembers [] d ms t saved = inr r -> fst r = t.
Proof.
  revert saved r.
  induction ms as [|[k v] ms IH]; intros saved r H; simpl in H.
  - inversion H; reflexivity.
  - destruct (jsonstr.unquote k) as [key|]; [|discriminate].
    apply IH in H. exact H.
Qed.

(** ... and when unknown fields are disallowed, each of them is an
    error. *)
Lemma storeMembers_disallowed {T} (ms : list (string * json.Value)) (t : T) saved r :
  jsonfields.storeMembers [] true ms t saved = inr r ->
  saved <> None \/ ms <> [] -> snd r <> None.
Proof.
  revert saved r.
  induction ms as [|[k v] ms IH]; intros saved r H; simpl in H.
  - inversion H; subst; simpl. intros [Hs|Hm]; [exact Hs | congruence].
  - destruct (jsonstr.unquote k) as [key|]; [|discriminate].
    intros _. apply (IH _ _ H). left. destruct saved; discriminate.
Qed.

Lemma unmarshal_no_fields {T} typeName d (v : json.Value) (t t' : T) :
  jsonfields.unmarshal typeName [] d v t = inr t' -> t' = t.
Proof.
  destruct v as [| | | | |ms]; simpl; try discriminate.
  - intros H; inversion H; auto.
  - destruct (jsonfields.storeMembers [] d ms t None) as [e|[t0 [e|]]] eqn:E;
      try discriminate.
    intros H; inversion H; subst.
    apply storeMembers_no_fields in E. exact E.
Qed.

(** A successful [Decode] leaves the event as it was: nothing of the
    body reaches it. *)
Lemma Decode_Event_unchanged rt dec w evt0 evt dec' w' :
  Decode_Event rt dec w evt0 = (inr evt, dec', w') -> evt = evt0.
Proof.
  unfold Decode_Event, decoder.Decode.
  rewrite typeFields_Event.
  destruct (decoder.isEmpty (json.skipSpace _)); [discriminate|].
  destruct (json.readValue _) as [v rest| | |]; try discriminate.
  destruct (negb (decoder.isContainer v) && decoder.isEmpty rest && _); [discriminate|].
  destruct (jsonfields.unmarshal _ _ _ _ _) as [e|t] eqn:E; [discriminate|].
  intros H; inversion H; subst.
  apply unmarshal_no_fields in E. exact E.
Qed.

(** ** The response writer on its way through the decoder *)

Lemma requestTooLarge_untouched w : untouched w -> untouched (http.requestTooLarge w).
Proof.
  intros [H1 H2]. unfold http.requestTooLarge. rewrite H1. split; assumption.
Qed.

Lemma exhausted_untouched dec w : untouched w -> untouched (decoder.exhausted dec w).
Proof.
  intros H. unfold decoder.exhausted, http.delivered.
  destruct (decoder.err dec); auto using requestTooLarge_untouched.
Qed.

Lemma satisfied_untouched dec w : untouched w -> untouched (decoder.satisfied dec w).
Proof.
  intros H. unfold decoder.satisfied.
  destruct (decoder.err dec); auto.
  destruct (decoder.ahead dec); auto using requestTooLarge_untouched.
Qed.

Lemma Decode_untouched {T} typeName fields dec w (t : T) :
  untouched w -> untouched (snd (decoder.Decode typeName fields dec w t)).
Proof.
  intros H. unfold decoder.Decode.
  repeat match goal with
         | |- context [if ?b then _ else _] => destruct b
         | |- context [match json.readValue ?s with _ => _ end] =>
           destruct (json.readValue s)
         end;
    simpl; auto using exhausted_untouched, satisfied_untouched.
Qed.

Lemma More_untouched dec w : untouched w -> untouched (snd (decoder.More dec w)).
Proof.
  intros H. unfold decoder.More.
  destruct (json.skipSpace _); simpl;
    auto using exhausted_untouched, satisfied_untouched.
Qed.

(** A decoder whose reader ends with the end of the input leaves the
    writer alone. *)
Lemma Decode_atEOF {T} typeName fields dec w (t : T) :
  decoder.err dec = io_EOF -> snd (decoder.Decode typeName fields dec w t) = w.
Proof.
  intros E. unfold decoder.Decode, decoder.exhausted, decoder.satisfied. rewrite E.
  repeat match goal with
         | |- context [if ?b then _ else _] => destruct b
         | |- context [match json.readValue ?s with _ => _ end] =>
           destruct (json.readValue s)
         end;
    reflexivity.
Qed.

Lemma Decode_keeps_err {T} typeName fields dec w (t : T) :
  decoder.err (snd (fst (decoder.Decode typeName fields dec w t))) = decoder.err dec.
Proof.
  unfold decoder.Decode.
  repeat match goal with
         | |- context [if ?b then _ else _] => destruct b
         | |- context [match json.readValue ?s with _ => _ end] =>
           destruct (json.readValue s)
         end;
    reflexivity.
Qed.

Lemma More_atEOF dec w : decoder.err dec = io_EOF -> snd (decoder.More dec w) = w.
Proof.
  intros E. unfold decoder.More, decoder.exhausted, decoder.satisfied. rewrite E.
  destruct (json.skipSpace _); reflexivity.
Qed.

(** ** The handler *)

Lemma httpError_fresh status message err :
  httpError http.newResponse status message err = errorReply status message (Error err).
Proof. reflexivity. Qed.

Lemma httpError_untouched w status message err :
  untouched w -> repliesError (httpError w status message err) status message (Error err).
Proof.
  intros [H1 H2]. unfold httpError, http.Encode, http.Write, http.WriteHeader.
  simpl. rewrite H1. simpl. rewrite H2. repeat split.
  apply lookup_insert_eq.
Qed.

Lemma newResponse_untouched : untouched http.newResponse.
Proof. split; reflexivity. Qed.

Lemma defaultTimestamp_fields evt now :
  model.ID (defaultTimestamp evt now) = model.ID evt /\
  model.Type_ (defaultTimestamp evt now) = model.Type_ evt /\
  model.Source (defaultTimestamp evt now) = model.Source evt.
Proof. unfold defaultTimestamp. destruct (time.IsZero _); auto. Qed.

(** A timestamp that is not zero is kept as it is, zone included. *)
Lemma defaultTimestamp_keeps evt now :
  time.IsZero (model.Timestamp evt) = false -> defaultTimestamp evt now = evt.
Proof. intros H. unfold defaultTimestamp. now rewrite H. Qed.

Lemma validateAndReply_accepts h w evt :
  untouched w ->
  model.Validate evt = None ->
  fst (validateAndReply h w evt) = mkHandler (Logger h ++ [acceptedLine evt]) /\
  repliesAccepted (snd (validateAndReply h w evt)) (model.ID evt).
Proof.
  intros [H1 H2] V. unfold validateAndReply. rewrite V.
  unfold http.Encode, http.Write, http.WriteHeader. simpl. rewrite H1. simpl. rewrite H2.
  repeat split. apply lookup_insert_eq.
Qed.

Lemma validateAndReply_rejects h w evt err :
  untouched w ->
  model.Validate evt = Some err ->
  fst (validateAndReply h w evt) = h /\
  repliesError (snd (validateAndReply h w evt)) http.StatusBadRequest
    "validation failed" (Error err).
Proof.
  intros U V. unfold validateAndReply. rewrite V. simpl.
  split; [reflexivity|]. now apply httpError_untouched.
Qed.

Lemma handlePostEvent_unfold rt h w r now :
  handlePostEvent rt h w r now =
  match Decode_Event rt (decoderFor rt r) w model.zero with
  | (inl err, _, w1) =>
    (h, httpError w1 http.StatusBadRequest "invalid JSON payload" err)
  | (inr evt, dec, w1) =>
    let '(more, w2) := decoder.More dec w1 in
    if more then
      (h, httpError w2 http.StatusBadRequest "unexpected extra JSON content"
            (errors_New "multiple JSON values"))
    else validateAndReply h w2 (defaultTimestamp evt now)
  end.
Proof. reflexivity. Qed.

(** The ways out of [handlePostEvent]: an error reply with status 400
    and the handler untouched, or the acceptance of an event that
    passed validation. *)
Lemma handlePostEvent_paths rt h r now :
  let res := handlePostEvent rt h http.newResponse r now in
  (fst res = h /\
   exists message err,
     repliesError (snd res) http.StatusBadRequest message (Error err)) \/
  (exists evt,
      model.Validate evt = None /\
      fst res = mkHandler (Logger h ++ [acceptedLine evt]) /\
      repliesAccepted (snd res) (model.ID evt)).
Proof.
  cbv zeta. rewrite handlePostEvent_unfold.
  pose proof (Decode_untouched "model.Event"
                (jsonfields.typeFields (Event_fields rt)) (decoderFor rt r)
                http.newResponse model.zero newResponse_untouched) as U1.
  fold (Decode_Event rt (decoderFor rt r) http.newResponse model.zero) in U1.
  destruct (Decode_Event rt (decoderFor rt r) http.newResponse model.zero)
    as [[[err|evt] dec] w1]; simpl in U1.
  - left. split; [reflexivity|]. exists "invalid JSON payload", err.
    now apply httpError_untouched.
  - pose proof (More_untouched dec w1 U1) as U2.
    destruct (decoder.More dec w1) as [more w2]; simpl in U2.
    destruct more.
    + left. split; [reflexivity|].
      exists "unexpected extra JSON content", (errors_New "multiple JSON values").
      now apply httpError_untouched.
    + destruct (model.Validate (defaultTimestamp evt now)) as [err|] eqn:V.
      * left. destruct (validateAndReply_rejects h w2 _ err U2 V) as [F S].
        split; [exact F|]. eauto.
      * right. exists (defaultTimestamp evt now). split; [exact V|].
        now apply validateAndReply_accepts.
Qed.

(** No body gets an event accepted: whatever is sent, the decoded event
    has no id, and the reply is an error with status 400. *)
Lemma handlePostEvent_rejects rt h r now :
  let res := handlePostEvent rt h http.newResponse r now in
  fst res = h /\
  exists message err,
    repliesError (snd res) http.StatusBadRequest message (Error err).
Proof.
  cbv zeta. rewrite handlePostEvent_unfold.
  pose proof (Decode_untouched "model.Event"
                (jsonfields.typeFields (Event_fields rt)) (decoderFor rt r)
                http.newResponse model.zero newResponse_untouched) as U1.
  fold (Decode_Event rt (decoderFor rt r) http.newResponse model.zero) in U1.
  destruct (Decode_Event rt (decoderFor rt r) http.newResponse model.zero)
    as [[[err|evt] dec] w1] eqn:D; simpl in U1.
  - split; [reflexivity|]. exists "invalid JSON payload", err.
    now apply httpError_untouched.
  - apply Decode_Event_unchanged in D. subst evt.
    pose proof (More_untouched dec w1 U1) as U2.
    destruct (decoder.More dec w1) as [more w2]; simpl in U2.
    destruct more.
    + split; [reflexivity|].
      exists "unexpected extra JSON content", (errors_New "multiple JSON values").
      now apply httpError_untouched.
    + assert (V : model.Validate (defaultTimestamp model.zero now)
                  = Some (errors_New "ID is required.")).
      { apply Validate_blank_ID.
        destruct (defaultTimestamp_fields model.zero now) as [-> _]. reflexivity. }
      destruct (validateAndReply_rejects h w2 _ _ U2 V) as [F S].
      split; [exact F|]. eauto.
Qed.

(** ** The body limit *)

Lemma readLimited_more n s :
  snd (http.readLimited n s) = true <-> (n < N.of_nat (String.length s))%N.
Proof.
  revert n. induction s as [|c s IH]; intros n; simpl.
  - split; [discriminate | lia].
  - destruct (N.eqb_spec n 0) as [->|Hn]; simpl.
    + split; [lia | reflexivity].
    + specialize (IH (N.pred n)).
      destruct (http.readLimited (N.pred n) s) as [p more]; simpl in *.
      rewrite IH. lia.
Qed.

Lemma readLimited_length n s :
  N.of_nat (String.length (fst (http.readLimited n s))) =
  N.min n (N.of_nat (String.length s)).
Proof.
  revert n. induction s as [|c s IH]; intros n; simpl.
  - lia.
  - destruct (N.eqb_spec n 0) as [->|Hn]; simpl.
    + lia.
    + specialize (IH (N.pred n)).
      destruct (http.readLimited (N.pred n) s) as [p more]; simpl in *.
      lia.
Qed.

Lemma readLimited_within n s :
  (N.of_nat (String.length s) <= n)%N -> http.readLimited n s = (s, false).
Proof.
  revert n. induction s as [|c s IH]; intros n H; simpl; [reflexivity|].
  simpl in H. destruct (N.eqb_spec n 0) as [->|Hn]; [lia|].
  rewrite IH by lia. reflexivity.
Qed.

(** The decoder of a request whose body exceeds the limit holds the
    first 1 MiB of it and ends with the reader's size error. *)
Lemma decoderFor_oversized rt r :
  exceedsLimit (http.Body r) ->
  decoder.buf (decoderFor rt r) = fst (http.readLimited (N.shiftl 1 20) (http.Body r)) /\
  decoder.err (decoderFor rt r) = http_MaxBytesError (N.shiftl 1 20).
Proof.
  intros H. apply readLimited_more in H.
  unfold decoderFor, http.MaxBytesReader, http.bodyReader.
  cbn [http.data http.readErr http.ahead].
  destruct (http.readLimited (N.shiftl 1 20) (http.Body r)) as [p more].
  simpl in H. subst more. split; reflexivity.
Qed.

(** Within the limit the decoder holds the whole body and ends with the
    end of the input. *)
Lemma decoderFor_within rt r :
  ~ exceedsLimit (http.Body r) ->
  decoderFor rt r = decoder.mkDecoder (http.Body r) io_EOF (readsAhead rt r) true.
Proof.
  intros H. unfold exceedsLimit in H.
  unfold decoderFor, http.MaxBytesReader, http.bodyReader.
  cbn [http.data http.readErr http.ahead].
  rewrite readLimited_within by lia. reflexivity.
Qed.

Lemma length_padding n : String.length (padding n) = n.
Proof. induction n; simpl; congruence. Qed.

Lemma skipSpace_limited_padding n m :
  json.skipSpace (fst (http.readLimited n (padding m))) = EmptyString.
Proof.
  revert n. induction m as [|m IH]; intros n; simpl; [reflexivity|].
  destruct (n =? 0)%N; [reflexivity|].
  specialize (IH (N.pred n)).
  destruct (http.readLimited (N.pred n) (padding m)) as [p more]. simpl in *.
  exact IH.
Qed.

Lemma twoMiB_exceedsLimit : exceedsLimit (http.Body (postEvents twoMiB)).
Proof.
  unfold exceedsLimit, postEvents, twoMiB. cbn [http.Body].
  rewrite length_padding, N2Nat.id. reflexivity.
Qed.

(** When the first 1 MiB of an oversized body does not hold a complete
    value, the decoder asks for more than the reader gives: [Decode]
    returns the reader's error, the connection is marked for closing, and
    the reply is the one for any decode error. *)
Lemma oversized_incomplete rt h r now :
  exceedsLimit (http.Body r) ->
  json.skipSpace (decoder.buf (decoderFor rt r)) = EmptyString \/
  json.readValue (decoder.buf (decoderFor rt r)) = json.NeedMore ->
  handlePostEvent rt h http.newResponse r now =
  (h, closingErrorReply http.StatusBadRequest "invalid JSON payload"
        "http: request body too large").
Proof.
  intros Hbig Hinc. rewrite handlePostEvent_unfold.
  destruct (decoderFor_oversized rt r Hbig) as [_ Herr].
  unfold Decode_Event, decoder.Decode, decoder.atEOF, decoder.exhausted.
  rewrite Herr.
  destruct (decoder.isEmpty (json.skipSpace (decoder.buf (decoderFor rt r)))) eqn:E.
  - reflexivity.
  - destruct Hinc as [Hs|Hn].
    + rewrite Hs in E. discriminate.
    + rewrite Hn. reflexivity.
Qed.

Lemma oversized_padding rt h m now :
  (N.shiftl 1 20 < N.of_nat m)%N ->
  handlePostEvent rt h http.newResponse (postEvents (padding m)) now =
  (h, closingErrorReply http.StatusBadRequest "invalid JSON payload"
        "http: request body too large").
Proof.
  intros Hm.
  assert (Hbig : exceedsLimit (http.Body (postEvents (padding m)))).
  { unfold exceedsLimit, postEvents. cbn [http.Body]. now rewrite length_padding. }
  apply oversized_incomplete; [exact Hbig|]. left.
  destruct (decoderFor_oversized rt _ Hbig) as [-> _].
  apply skipSpace_limited_padding.
Qed.

(** Within the limit, a malformed body and a body with an unknown
    field both make [Decode] fail. *)
Lemma decode_error_within rt h r now :
  ~ exceedsLimit (http.Body r) ->
  malformed (http.Body r) \/ hasUnknownField specFields (http.Body r) ->
  exists err,
    handlePostEvent rt h http.newResponse r now =
    (h, errorReply http.StatusBadRequest "invalid JSON payload" (Error err)).
Proof.
  intros Hin Hbad. rewrite handlePostEvent_unfold, (decoderFor_within rt r Hin).
  unfold Decode_Event, decoder.Decode, decoder.exhausted, decoder.satisfied.
  cbn [decoder.buf decoder.err decoder.disallowUnknownFields decoder.ahead
       http.delivered].
  rewrite typeFields_Event.
  destruct (decoder.isEmpty (json.skipSpace _)); [eexists; now rewrite httpError_fresh|].
  destruct Hbad as [Hm|(ms & rest & rawKey & key & v & Hr & Hk & Hu & _)].
  - unfold malformed in Hm.
    destruct (json.readValue (http.Body r)); try contradiction;
      eexists; now rewrite httpError_fresh.
  - rewrite Hr. cbn [decoder.isContainer negb andb].
    unfold jsonfields.unmarshal.
    destruct (jsonfields.storeMembers [] true ms model.zero None)
      as [e|[t [e|]]] eqn:E; try (eexists; now rewrite httpError_fresh).
    exfalso. apply storeMembers_disallowed in E.
    + apply E. reflexivity.
    + right. intros ->. destruct Hk.
Qed.

(** * The handler's contract *)

(** C1, as the code answers it: posting
    [{"id":"e1","type":"click","source":"web"}] is not accepted.  The
    decoder knows no field of [Event] (all five share the tag [id]), so
    the key [id] is reported as unknown and the reply is 400
    "invalid JSON payload"; nothing is logged. *)
Theorem round_trip_rejected :
  forall rt h now,
    handlePostEvent rt h http.newResponse (postEvents clickBody) now =
    (h, errorReply http.StatusBadRequest "invalid JSON payload"
          ("json: unknown field " +:+ dquote +:+ "id" +:+ dquote)).
Proof. intros. vm_compute. reflexivity. Qed.

(** What the decoder does with the same body for a struct whose fields
    have a key each ([id], [type], [source], [timestamp], [payload]): the
    three strings are stored.  The struct of the repository differs from
    this one in its tags only. *)
Example Decode_with_a_key_per_field :
  forall rt,
    fst (fst (decoder.Decode "model.Event"
           (jsonfields.typeFields
              [ jsonfields.mkField "ID" "id"
                  (jsonfields.storeString "Event.id" model.set_ID);
                jsonfields.mkField "Type" "type"
                  (jsonfields.storeString "Event.type" model.set_Type);
                jsonfields.mkField "Source" "source"
                  (jsonfields.storeString "Event.source" model.set_Source);
                jsonfields.mkField "Timestamp" "timestamp"
                  (jsonfields.storeTime (time_Parse rt) model.set_Timestamp);
                jsonfields.mkField "Payload" "payload"
                  (jsonfields.storeAny (float64_outOfRange rt) "Event.payload"
                     model.set_Payload) ])
           (decoderFor rt (postEvents clickBody)) http.newResponse model.zero))
    = inr (model.mkEvent "e1" "click" "web" time.zero None).
Proof. intros. vm_compute. reflexivity. Qed.

(** C4, as amended: of a body that exceeds 1 MiB the decoder is handed
    the first 1 MiB only, and the reply never has the status 413
    (request entity too large): when the JSON value is not complete within
    that first 1 MiB, the request is rejected like any other decode error,
    with status 400 and "invalid JSON payload", the details being the
    reader's "http: request body too large"; the reader has marked the
    connection for closing. *)
Theorem oversized_body :
  forall rt h r now,
    exceedsLimit (http.Body r) ->
    let dec := decoderFor rt r in
    let reply := handlePostEvent rt h http.newResponse r now in
    decoder.buf dec = fst (http.readLimited (N.shiftl 1 20) (http.Body r)) /\
    N.of_nat (String.length (decoder.buf dec)) = N.shiftl 1 20 /\
    http.StatusCode (snd reply) <> Some http.StatusRequestEntityTooLarge /\
    (json.skipSpace (decoder.buf dec) = EmptyString \/
     json.readValue (decoder.buf dec) = json.NeedMore ->
     reply = (h, closingErrorReply http.StatusBadRequest "invalid JSON payload"
                   "http: request body too large")).
Proof.
  intros rt h r now Hbig dec reply.
  destruct (decoderFor_oversized rt r Hbig) as [Hbuf Herr].
  split; [exact Hbuf|]. split.
  { subst dec. rewrite Hbuf, readLimited_length. unfold exceedsLimit in Hbig. lia. }
  split.
  { subst reply.
    destruct (handlePostEvent_paths rt h r now)
      as [(_ & m & e & S & _)|(evt & _ & _ & S & _)];
      rewrite S; discriminate. }
  intros Hinc. now apply oversized_incomplete.
Qed.

(** 2 MiB of padding: over the limit, and never answered with 413. *)
Lemma oversized_body_witness :
  exceedsLimit (http.Body (postEvents twoMiB)) /\
  (forall rt,
      http.StatusCode
        (snd (handlePostEvent rt freshHandler http.newResponse
                (postEvents twoMiB) sampleNow))
      <> Some http.StatusRequestEntityTooLarge).
Proof.
  split; [exact twoMiB_exceedsLimit|].
  intros rt.
  exact (proj1 (proj2 (proj2
    (oversized_body rt freshHandler (postEvents twoMiB) sampleNow twoMiB_exceedsLimit)))).
Defined.

(** The original wording of C4 fails on 2 MiB of padding: the body
    exceeds the limit, and the reply is the generic decode error with
    status 400, not 413. *)
Lemma oversized_body_not_413 :
  exceedsLimit (http.Body (postEvents twoMiB)) /\
  (forall rt,
      handlePostEvent rt freshHandler http.newResponse (postEvents twoMiB) sampleNow =
      (freshHandler,
       closingErrorReply http.StatusBadRequest "invalid JSON payload"
         "http: request body too large")) /\
  http.StatusBadRequest <> http.StatusRequestEntityTooLarge.
Proof.
  split; [exact twoMiB_exceedsLimit|]. split; [|discriminate].
  intros rt. apply oversized_padding.
  rewrite N2Nat.id. reflexivity.
Qed.

(** C5: a body that is malformed JSON, or has a top-level field the
    envelope does not know, or carries content after its first value, is
    answered with status 400 and the error shape; it is not accepted and
    nothing is logged.  Within the body limit the first two are reported
    as "invalid JSON payload". *)
Theorem decode_errors_rejected :
  forall rt h r now,
    malformed (http.Body r) \/
    hasUnknownField specFields (http.Body r) \/
    hasTrailingContent (http.Body r) ->
    let reply := handlePostEvent rt h http.newResponse r now in
    http.StatusCode (snd reply) = Some http.StatusBadRequest /\
    (exists message details,
        repliesError (snd reply) http.StatusBadRequest message details) /\
    (forall id, ~ repliesAccepted (snd reply) id) /\
    fst reply = h /\
    (~ exceedsLimit (http.Body r) ->
     malformed (http.Body r) \/ hasUnknownField specFields (http.Body r) ->
     exists err,
       snd reply = errorReply http.StatusBadRequest "invalid JSON payload" (Error err)).
Proof.
  intros rt h r now Hbad reply. subst reply.
  destruct (handlePostEvent_rejects rt h r now) as (F & m & e & S).
  split; [exact (proj1 S)|].
  split; [eauto|].
  split; [intros id [A _]; rewrite (proj1 S) in A; discriminate A|].
  split; [exact F|].
  intros Hin Hdec.
  destruct (decode_error_within rt h r now Hin Hdec) as (e' & ->). simpl. eauto.
Qed.

(** One body of each kind: an object that is never closed, the click
    event with a field [bogus], and two click events in a row. *)
Lemma decode_errors_rejected_witness :
  (malformed unclosedBody /\
   hasUnknownField specFields bogusBody /\
   hasTrailingContent twoEvents) /\
  (forall rt body,
      In body [unclosedBody; bogusBody; twoEvents] ->
      http.StatusCode
        (snd (handlePostEvent rt freshHandler http.newResponse
                (postEvents body) sampleNow))
      = Some http.StatusBadRequest).
Proof.
  assert (H1 : malformed unclosedBody) by (vm_compute; exact I).
  assert (H2 : hasUnknownField specFields bogusBody).
  { exists [("id", json.Str "e1"); ("type", json.Str "click");
            ("source", json.Str "web"); ("bogus", json.Bool true)],
           EmptyString, "bogus", "bogus", (json.Bool true).
    split; [vm_compute; reflexivity|]. split; [simpl; tauto|].
    split; [vm_compute; reflexivity|].
    simpl. intros [H|[H|[H|[H|[H|[]]]]]]; discriminate H. }
  assert (H3 : hasTrailingContent twoEvents).
  { exists (json.Object [("id", json.Str "e1"); ("type", json.Str "click");
                         ("source", json.Str "web")]), clickBody.
    split; [vm_compute; reflexivity|]. vm_compute. discriminate. }
  split; [tauto|].
  intros rt body [<-|[<-|[<-|[]]]].
  - exact (proj1 (decode_errors_rejected rt freshHandler (postEvents unclosedBody)
                    sampleNow (or_introl H1))).
  - exact (proj1 (decode_errors_rejected rt freshHandler (postEvents bogusBody)
                    sampleNow (or_intror (or_introl H2)))).
  - exact (proj1 (decode_errors_rejected rt freshHandler (postEvents twoEvents)
                    sampleNow (or_intror (or_intror H3)))).
Defined.



(** C7: a reply of [handlePostEvent] that is not the acceptance is the
    JSON object [{error, details}] with status 400, and its details are
    the text of the underlying error: of the error [Decode] returned
    under "invalid JSON payload", of the handler's own "multiple JSON
    values" when [More] answers true, and of the error [Validate]
    returned under "validation failed".  No reply has a 5xx status. *)
Theorem error_response_contract :
  forall rt h r now,
    let reply := snd (handlePostEvent rt h http.newResponse r now) in
    (http.StatusCode reply <> Some http.StatusAccepted ->
     (exists message err,
         repliesError reply http.StatusBadRequest message (Error err) /\
         (400 <= http.StatusBadRequest < 500)%Z) /\
     match Decode_Event rt (decoderFor rt r) http.newResponse model.zero with
     | (inl err, _, _) =>
       repliesError reply http.StatusBadRequest "invalid JSON payload" (Error err)
     | (inr evt, dec, w) =>
       if fst (decoder.More dec w) then
         repliesError reply http.StatusBadRequest "unexpected extra JSON content"
           (Error (errors_New "multiple JSON values"))
       else
         exists err,
           model.Validate (defaultTimestamp evt now) = Some err /\
           repliesError reply http.StatusBadRequest "validation failed" (Error err)
     end) /\
    (exists code, http.StatusCode reply = Some code /\ (code < 500)%Z).
Proof.
  intros rt h r now reply. subst reply.
  split.
  - intros NA. split.
    + destruct (handlePostEvent_paths rt h r now)
        as [(_ & m & e & S)|(evt & _ & _ & S)].
      * exists m, e. split; [exact S|]. unfold http.StatusBadRequest. lia.
      * exfalso. apply NA. exact (proj1 S).
    + revert NA. rewrite handlePostEvent_unfold.
      pose proof (Decode_untouched "model.Event"
                    (jsonfields.typeFields (Event_fields rt)) (decoderFor rt r)
                    http.newResponse model.zero newResponse_untouched) as U1.
      fold (Decode_Event rt (decoderFor rt r) http.newResponse model.zero) in U1.
      destruct (Decode_Event rt (decoderFor rt r) http.newResponse model.zero)
        as [[[err|evt] dec] w1]; cbn [snd fst] in U1.
      * intros _. now apply httpError_untouched.
      * pose proof (More_untouched dec w1 U1) as U2.
        destruct (decoder.More dec w1) as [more w2]. cbn [snd fst] in U2 |- *.
        destruct more.
        -- intros _.
           now apply (httpError_untouched w2 _ _ (errors_New "multiple JSON values")).
        -- intros NA.
           destruct (model.Validate (defaultTimestamp evt now)) as [err|] eqn:V.
           ++ exists err. split; [reflexivity|].
              exact (proj2 (validateAndReply_rejects h w2 _ err U2 V)).
           ++ exfalso. apply NA.
              exact (proj1 (proj2 (validateAndReply_accepts h w2 _ U2 V))).
  - destruct (handlePostEvent_paths rt h r now)
      as [(_ & m & e & S)|(evt & _ & _ & S)].
    + exists http.StatusBadRequest. split; [exact (proj1 S)|].
      unfold http.StatusBadRequest. lia.
    + exists http.StatusAccepted. split; [exact (proj1 S)|].
      unfold http.StatusAccepted. lia.
Qed.

(** The click event is rejected, and the details are the text of the
    error [Decode] returned for it: the key [id] is an unknown field. *)
Lemma error_response_contract_witness :
  (forall rt,
      http.StatusCode
        (snd (handlePostEvent rt freshHandler http.newResponse
                (postEvents clickBody) sampleNow))
      <> Some http.StatusAccepted) /\
  (forall rt,
      fst (fst (Decode_Event rt (decoderFor rt (postEvents clickBody))
                  http.newResponse model.zero))
      = inl (json_UnknownField "id") /\
      repliesError
        (snd (handlePostEvent rt freshHandler http.newResponse
                (postEvents clickBody) sampleNow))
        http.StatusBadRequest "invalid JSON payload"
        (Error (json_UnknownField "id"))).
Proof.
  assert (R : forall rt,
             http.StatusCode
               (snd (handlePostEvent rt freshHandler http.newResponse
                       (postEvents clickBody) sampleNow))
             <> Some http.StatusAccepted)
    by (intros rt; vm_compute; discriminate).
  split; [exact R|].
  intros rt.
  assert (D : Decode_Event rt (decoderFor rt (postEvents clickBody))
                http.newResponse model.zero
              = (inl (json_UnknownField "id"),
                 decoder.mkDecoder EmptyString io_EOF
                   (readsAhead rt (postEvents clickBody)) true,
                 http.newResponse))
    by (vm_compute; reflexivity).
  split; [now rewrite D|].
  pose proof (error_response_contract rt freshHandler (postEvents clickBody) sampleNow)
    as T.
  cbv zeta in T. destruct T as [T _]. destruct (T (R rt)) as [_ C].
  rewrite D in C. exact C.
Defined.

(** C8: after any history of requests, [GET /health] is answered with
    status 200 and the text [ok]; the handler's state is left as it was,
    and neither the request nor the clock is looked at. *)
Theorem health_always_ok :
  forall rt h0 history now,
    let h := serveAll rt h0 history in
    serve rt h getHealth now =
      (h, Some (http.mkResponse ∅ (Some http.StatusOK) [http.Text "ok"])) /\
    (forall r now',
        handleHealth h http.newResponse r now' =
        (h, http.mkResponse ∅ (Some http.StatusOK) [http.Text "ok"])).
Proof. intros. split; reflexivity. Qed.

(** C10: an event whose id is not blank is accepted with its id echoed
    as it stands, surrounding white space included: neither the reply nor
    the log line carries the trimmed id. *)
Theorem id_echoed_verbatim :
  forall h w evt now,
    untouched w ->
    isBlank (model.ID evt) = false ->
    isBlank (model.Type_ evt) = false ->
    isBlank (model.Source evt) = false ->
    let evt' := defaultTimestamp evt now in
    model.Validate evt' = None /\
    fst (validateAndReply h w evt') = mkHandler (Logger h ++ [acceptedLine evt']) /\
    repliesAccepted (snd (validateAndReply h w evt')) (model.ID evt) /\
    model.ID evt' = model.ID evt.
Proof.
  intros h w evt now U H1 H2 H3 evt'.
  apply not_blank_trimmed in H1, H2, H3.
  destruct (defaultTimestamp_fields evt now) as (E1 & E2 & E3). fold evt' in E1, E2, E3.
  assert (V : model.Validate evt' = None)
    by (apply Validate_passes; congruence).
  split; [exact V|].
  destruct (validateAndReply_accepts h w evt' U V) as [F S].
  split; [exact F|]. split; [|exact E1].
  rewrite <- E1. exact S.
Qed.

(** An event whose id is [" e1 "]: white space around a non-blank id.
    Trimming would give ["e1"]; the reply says [" e1 "]. *)
Lemma id_echoed_verbatim_witness :
  let evt := model.mkEvent " e1 " "click" "web" time.zero None in
  (untouched http.newResponse /\
   isBlank (model.ID evt) = false /\
   strings.TrimSpace (model.ID evt) = "e1" /\ model.ID evt <> "e1") /\
  repliesAccepted
    (snd (validateAndReply freshHandler http.newResponse (defaultTimestamp evt sampleNow)))
    " e1 ".
Proof.
  intros evt.
  assert (U : untouched http.newResponse) by (split; reflexivity).
  assert (H1 : isBlank (model.ID evt) = false) by (vm_compute; reflexivity).
  assert (H2 : isBlank (model.Type_ evt) = false) by (vm_compute; reflexivity).
  assert (H3 : isBlank (model.Source evt) = false) by (vm_compute; reflexivity).
  split; [split; [exact U | split; [exact H1 | split; [vm_compute; reflexivity | discriminate]]]|].
  destruct (id_echoed_verbatim freshHandler http.newResponse evt sampleNow U H1 H2 H3)
    as (_ & _ & S & _).
  exact S.
Defined.

(** * Further properties of the code *)

(** ** Validation, byte by byte *)

Lemma first_multi_lo b sz lo hi :
  utf8.first b = utf8.LeadMulti sz lo hi -> 0x80 <= lo.
Proof.
  unfold utf8.first.
  repeat match goal with
         | |- context [if ?c then _ else _] => destruct c
         end; intros H; inversion H; subst; lia.
Qed.

Lemma outside_lo lo hi x : utf8.outside lo hi x = false -> lo <= x.
Proof.
  unfold utf8.outside. intros H. apply orb_false_iff in H as [H _].
  now apply N.ltb_ge in H.
Qed.

(** The bytes [DecodeRuneInString] takes are one ASCII byte, or bytes
    outside ASCII only. *)
Lemma DecodeRune_ascii c t :
  byteval c < 0x80 -> utf8.DecodeRuneInString (c :: t) = (byteval c, 1%nat).
Proof. intros H. unfold utf8.DecodeRuneInString. now rewrite (first_ascii _ H). Qed.

Lemma DecodeRune_taken c0 t :
  0x80 <= byteval c0 ->
  Forall (fun c => 0x80 <= byteval c)
         (take (snd (utf8.DecodeRuneInString (c0 :: t))) (c0 :: t)).
Proof.
  intros H0.
  assert (One : Forall (fun c => 0x80 <= byteval c) (take 1 (c0 :: t)))
    by (simpl; rewrite take_0; repeat constructor; exact H0).
  unfold utf8.DecodeRuneInString.
  destruct (utf8.first (byteval c0)) as [| |sz lo hi] eqn:F; [exact One..|].
  pose proof (first_multi_lo _ _ _ _ F) as Lo.
  destruct (length (c0 :: t) <? sz)%nat; [exact One|].
  destruct t as [|c1 t1]; [exact One|].
  destruct (utf8.outside lo hi (byteval c1)) eqn:O1; [exact One|].
  apply outside_lo in O1.
  destruct (sz <=? 2)%nat.
  { simpl. rewrite take_0. repeat constructor; lia. }
  destruct t1 as [|c2 t2]; [exact One|].
  destruct (utf8.outside 128 191 (byteval c2)) eqn:O2; [exact One|].
  apply outside_lo in O2.
  destruct (sz <=? 3)%nat.
  { simpl. rewrite take_0. repeat constructor; lia. }
  destruct t2 as [|c3 t3]; [exact One|].
  destruct (utf8.outside 128 191 (byteval c3)) eqn:O3; [exact One|].
  apply outside_lo in O3.
  simpl. rewrite take_0. repeat constructor; lia.
Qed.

(** Every ASCII byte of a string is one of its runes. *)
Lemma ascii_byte_in_runes fuel s c :
  (length s <= fuel)%nat -> In c s -> byteval c < 0x80 ->
  In (byteval c) (runes_from fuel s).
Proof.
  revert s. induction fuel as [|fuel IH]; intros s L I A.
  - destruct s; [destruct I | simpl in L; lia].
  - destruct s as [|c0 t]; [destruct I|].
    cbn [runes_from].
    destruct (N.lt_ge_cases (byteval c0) 0x80) as [A0|N0].
    + rewrite (DecodeRune_ascii c0 t A0).
      destruct I as [->|I]; [left; reflexivity|].
      cbn [drop]. rewrite drop_0.
      right. apply IH; [simpl in L; lia | exact I | exact A].
    + pose proof (DecodeRune_taken c0 t N0) as T.
      pose proof (DecodeRune_size (c0 :: t) ltac:(discriminate)) as [[S1 S2] _].
      destruct (utf8.DecodeRuneInString (c0 :: t)) as [r size]. cbn [snd] in *.
      right. apply IH.
      * rewrite length_drop. simpl in *. lia.
      * rewrite <- (take_drop size (c0 :: t)) in I.
        apply in_app_or in I as [I|I]; [|exact I].
        rewrite Forall_forall in T. apply list_elem_of_In in I.
        apply T in I. lia.
      * exact A.
Qed.

Lemma hasNonSpace_not_blank s : hasNonSpace s = true -> isBlank s = false.
Proof.
  unfold hasNonSpace, isBlank, runes. intros H.
  apply existsb_exists in H as (c & I & K).
  unfold asciiNonSpace in K. apply andb_true_iff in K as [A NS].
  apply N.ltb_lt in A. apply negb_true_iff in NS.
  apply not_true_iff_false. intros B.
  rewrite forallb_forall in B.
  specialize (B (byteval c)).
  rewrite B in NS; [discriminate|].
  apply ascii_byte_in_runes; [rewrite length_to_bytes; lia | exact I | exact A].
Qed.

(** A string of ASCII white space reads as white space runes. *)
Lemma allSpaces_runes fuel s :
  forallb asciiSpace s = true -> forallb unicode.IsSpace (runes_from fuel s) = true.
Proof.
  revert s. induction fuel as [|fuel IH]; intros s H; [reflexivity|].
  destruct s as [|c t]; [reflexivity|].
  cbn [forallb] in H. apply andb_true_iff in H as [Hc Ht].
  assert (A : byteval c < 0x80).
  { unfold asciiSpace in Hc. apply orb_true_iff in Hc as [Hc|Hc].
    - apply andb_true_iff in Hc as [_ Hc]. apply N.leb_le in Hc. lia.
    - apply N.eqb_eq in Hc. lia. }
  cbn [runes_from]. rewrite (DecodeRune_ascii c t A). cbn [forallb drop]. rewrite drop_0.
  rewrite (IH t Ht), andb_true_r.
  unfold unicode.IsSpace.
  assert (E : (byteval c <=? 255) = true) by (apply N.leb_le; lia).
  rewrite E.
  unfold asciiSpace in Hc. rewrite Hc. reflexivity.
Qed.

Lemma allSpaces_blank s : allSpaces s = true -> isBlank s = true.
Proof. unfold allSpaces, isBlank, runes. apply allSpaces_runes. Qed.

(** In an ASCII string the bytes are the runes. *)
Lemma ascii_no_nonspace_allSpaces s :
  isASCII s = true -> hasNonSpace s = false -> allSpaces s = true.
Proof.
  unfold isASCII, hasNonSpace, allSpaces.
  induction (to_bytes s) as [|c t IH]; [reflexivity|].
  cbn [forallb existsb]. intros A K.
  apply andb_true_iff in A as [Ac At]. apply orb_false_iff in K as [Kc Kt].
  rewrite (IH At Kt), andb_true_r.
  unfold asciiNonSpace in Kc. rewrite Ac in Kc. cbn [andb] in Kc.
  apply negb_false_iff in Kc.
  unfold unicode.IsSpace in Kc. apply N.ltb_lt in Ac.
  assert (E : (byteval c <=? 255) = true)
    by (apply N.leb_le; unfold utf8.RuneSelf in Ac; lia).
  rewrite E in Kc. unfold asciiSpace.
  apply orb_true_iff in Kc as [Kc|Kc]; [|apply N.eqb_eq in Kc; unfold utf8.RuneSelf in Ac; lia].
  apply orb_true_iff in Kc as [Kc|Kc]; [|apply N.eqb_eq in Kc; unfold utf8.RuneSelf in Ac; lia].
  exact Kc.
Qed.

(** X1: an event whose id, type and source each hold at least one
    ASCII byte that is not white space passes [Validate], whatever
    other bytes the fields hold (control characters and ill-formed
    UTF-8 included). *)
Theorem Validate_accepts_nonspace :
  forall e,
    hasNonSpace (model.ID e) = true ->
    hasNonSpace (model.Type_ e) = true ->
    hasNonSpace (model.Source e) = true ->
    model.Validate e = None.
Proof.
  intros e H1 H2 H3.
  apply Validate_passes; apply not_blank_trimmed, hasNonSpace_not_blank; assumption.
Qed.

(** An id of the bytes 0xFF and 0x00: not UTF-8, and accepted. *)
Lemma Validate_accepts_nonspace_witness :
  let e := model.mkEvent (String "255" (String "000" "")) "<" " y " time.zero None in
  (hasNonSpace (model.ID e) = true /\ hasNonSpace (model.Type_ e) = true /\
   hasNonSpace (model.Source e) = true) /\
  model.Validate e = None.
Proof.
  intros e.
  assert (H1 : hasNonSpace (model.ID e) = true) by (vm_compute; reflexivity).
  assert (H2 : hasNonSpace (model.Type_ e) = true) by (vm_compute; reflexivity).
  assert (H3 : hasNonSpace (model.Source e) = true) by (vm_compute; reflexivity).
  split; [tauto|]. exact (Validate_accepts_nonspace e H1 H2 H3).
Defined.

(** X2: on an event whose id, type and source are ASCII, [Validate]
    is decided byte by byte: it reports the first of the three, in the
    order id, type, source, that holds nothing but tabs, line feeds,
    vertical tabs, form feeds, carriage returns and spaces, and passes
    when there is none. *)
Theorem Validate_on_ASCII :
  forall e,
    isASCII (model.ID e) = true ->
    isASCII (model.Type_ e) = true ->
    isASCII (model.Source e) = true ->
    model.Validate e =
    if negb (hasNonSpace (model.ID e)) then Some (errors_New "ID is required.")
    else if negb (hasNonSpace (model.Type_ e)) then Some (errors_New "Type is required.")
    else if negb (hasNonSpace (model.Source e)) then Some (errors_New "Source is required.")
    else None.
Proof.
  intros e A1 A2 A3.
  assert (B : forall s, isASCII s = true -> isBlank s = negb (hasNonSpace s)).
  { intros s A. destruct (hasNonSpace s) eqn:K.
    - now apply hasNonSpace_not_blank.
    - now apply allSpaces_blank, ascii_no_nonspace_allSpaces. }
  unfold model.Validate. rewrite !trimmed_empty_isBlank.
  rewrite (B _ A1), (B _ A2), (B _ A3). reflexivity.
Qed.

(** A type of a space, a tab and a line feed. *)
Lemma Validate_on_ASCII_witness :
  let e := model.mkEvent "e1" (String " " (String "009" (String "010" ""))) ""
             time.zero None in
  (isASCII (model.ID e) = true /\ isASCII (model.Type_ e) = true /\
   isASCII (model.Source e) = true) /\
  model.Validate e = Some (errors_New "Type is required.").
Proof.
  intros e.
  assert (A1 : isASCII (model.ID e) = true) by (vm_compute; reflexivity).
  assert (A2 : isASCII (model.Type_ e) = true) by (vm_compute; reflexivity).
  assert (A3 : isASCII (model.Source e) = true) by (vm_compute; reflexivity).
  split; [tauto|]. rewrite (Validate_on_ASCII e A1 A2 A3). reflexivity.
Defined.

(** ** Routing and the handler's state *)

Lemma matches_POST_events r :
  http.matches "POST /events" r = true <->
  http.Method r = "POST" /\ http.Path r = "/events".
Proof.
  unfold http.matches. cbn [http.splitPattern Ascii.eqb Bool.eqb].
  rewrite andb_true_iff, orb_true_iff, andb_true_iff.
  rewrite !String.eqb_eq. cbn.
  split.
  - intros (P & [M|[M _]]); [split; congruence | discriminate M].
  - intros (M & P). split; [congruence | left; congruence].
Qed.

Lemma matches_GET_health r :
  http.matches "GET /health" r = true <->
  (http.Method r = "GET" \/ http.Method r = "HEAD") /\ http.Path r = "/health".
Proof.
  unfold http.matches. cbn [http.splitPattern Ascii.eqb Bool.eqb].
  rewrite andb_true_iff, orb_true_iff, andb_true_iff.
  rewrite !String.eqb_eq. cbn.
  split.
  - intros (P & [M|[_ M]]); split; try congruence; [left | right]; congruence.
  - intros ([M|M] & P); (split; [congruence|]); [left | right; split]; congruence.
Qed.

(** X3: the routes of [Register].  [POST /events] reaches
    [handlePostEvent]; [GET /health] and [HEAD /health] reach
    [handleHealth]; every other request reaches no handler and leaves the
    handler's state alone. *)
Theorem routes :
  forall rt h r now,
    (http.Method r = "POST" /\ http.Path r = "/events" ->
     serve rt h r now =
     (fst (handlePostEvent rt h http.newResponse r now),
      Some (snd (handlePostEvent rt h http.newResponse r now)))) /\
    ((http.Method r = "GET" \/ http.Method r = "HEAD") /\ http.Path r = "/health" ->
     serve rt h r now =
     (h, Some (http.mkResponse ∅ (Some http.StatusOK) [http.Text "ok"]))) /\
    (~ (http.Method r = "POST" /\ http.Path r = "/events") ->
     ~ ((http.Method r = "GET" \/ http.Method r = "HEAD") /\ http.Path r = "/health") ->
     serve rt h r now = (h, None)).
Proof.
  intros rt h r now. unfold serve, Register. cbn [List.find fst].
  split; [|split].
  - intros HP. apply matches_POST_events in HP. rewrite HP.
    destruct (handlePostEvent rt h http.newResponse r now); reflexivity.
  - intros HG.
    assert (NP : http.matches "POST /events" r = false).
    { apply not_true_iff_false. rewrite matches_POST_events.
      intros [_ E]. destruct HG as [_ E']. congruence. }
    apply matches_GET_health in HG. rewrite NP, HG. reflexivity.
  - intros NP NG.
    rewrite <- matches_POST_events in NP. rewrite <- matches_GET_health in NG.
    apply not_true_iff_false in NP, NG. rewrite NP, NG. reflexivity.
Qed.

(** No request changes the handler: a request that reaches no handler
    and [handleHealth] leave it alone, and [handlePostEvent] rejects. *)
Lemma serve_keeps_handler rt h r now : fst (serve rt h r now) = h.
Proof.
  unfold serve, Register. cbn [List.find fst].
  destruct (http.matches "POST /events" r).
  - pose proof (handlePostEvent_rejects rt h r now) as [F _]. cbv zeta in F.
    destruct (handlePostEvent rt h http.newResponse r now). exact F.
  - destruct (http.matches "GET /health" r); reflexivity.
Qed.

(** X4: whatever the body, [handlePostEvent] answers with status 400,
    never with the acceptance, and logs nothing: with every field of
    [Event] tagged [id] the decoder stores nothing, so no event ever has
    an id. *)
Theorem post_never_accepted :
  forall rt h r now,
    let reply := handlePostEvent rt h http.newResponse r now in
    http.StatusCode (snd reply) = Some http.StatusBadRequest /\
    (forall id, ~ repliesAccepted (snd reply) id) /\
    Logger (fst reply) = Logger h.
Proof.
  intros rt h r now reply. subst reply.
  destruct (handlePostEvent_rejects rt h r now) as (F & m & e & S & _).
  split; [exact S|]. split; [|now rewrite F].
  intros id [A _]. rewrite S in A. discriminate A.
Qed.

(** X5: no sequence of requests, whatever their methods, paths and
    bodies, changes the handler: its logger holds the lines it held
    before. *)
Theorem history_logs_nothing :
  forall rt h history, serveAll rt h history = h.
Proof.
  intros rt h history. revert h.
  induction history as [|[r now] rest IH]; intros h; simpl; [reflexivity|].
  rewrite serve_keeps_handler. apply IH.
Qed.

(** ** What [Decode] answers within the limit *)

Lemma Decode_Event_whole rt body a w :
  Decode_Event rt (decoder.mkDecoder body io_EOF a true) w model.zero =
  let rest s := decoder.mkDecoder s io_EOF a true in
  if decoder.isEmpty (json.skipSpace body) then (inl io_EOF, rest EmptyString, w)
  else
    match json.readValue body with
    | json.Scanned v s =>
      (jsonfields.unmarshal "model.Event" [] true v model.zero, rest s, w)
    | json.NeedMore => (inl io_ErrUnexpectedEOF, rest EmptyString, w)
    | json.Invalid c context => (inl (json_SyntaxError c context), rest EmptyString, w)
    | json.OutOfFuel => (inl io_ErrUnexpectedEOF, rest EmptyString, w)
    end.
Proof.
  unfold Decode_Event, decoder.Decode, decoder.exhausted, decoder.satisfied, decoder.atEOF.
  cbn [decoder.buf decoder.err decoder.disallowUnknownFields decoder.ahead
       http.delivered negb].
  rewrite typeFields_Event.
  destruct (decoder.isEmpty (json.skipSpace body)); [reflexivity|].
  destruct (json.readValue body) as [v s| | |]; try reflexivity.
  rewrite andb_false_r.
  destruct (negb (decoder.isContainer v) && decoder.isEmpty s); reflexivity.
Qed.

Lemma More_whole rest a w :
  decoder.More (decoder.mkDecoder rest io_EOF a true) w = (negb (endsOrCloses rest), w).
Proof.
  unfold decoder.More, endsOrCloses, decoder.exhausted, decoder.satisfied.
  cbn [decoder.buf decoder.err http.delivered].
  destruct (json.skipSpace rest); reflexivity.
Qed.

Lemma readValue_blank s : json.skipSpace s = EmptyString -> json.readValue s = json.NeedMore.
Proof. intros H. unfold json.readValue. cbn [json.scanValue]. now rewrite H. Qed.

Lemma skipSpace_limited n s :
  json.skipSpace s = EmptyString ->
  json.skipSpace (fst (http.readLimited n s)) = EmptyString.
Proof.
  revert n. induction s as [|c s IH]; intros n H; simpl; [reflexivity|].
  simpl in H. destruct (json.isSpace c) eqn:E; [|discriminate].
  destruct (n =? 0)%N; [reflexivity|].
  specialize (IH (N.pred n) H).
  destruct (http.readLimited (N.pred n) s) as [p more]. simpl in *.
  now rewrite E.
Qed.

(** X6: a body of nothing but white space (the empty body included) is
    answered 400 "invalid JSON payload"; the details are "EOF" up to
    exactly 1 MiB, and beyond it the reader's "http: request body too
    large", with the connection marked for closing. *)
Theorem blank_body :
  forall rt h r now,
    json.skipSpace (http.Body r) = EmptyString ->
    handlePostEvent rt h http.newResponse r now =
    (h, if (N.shiftl 1 20 <? N.of_nat (String.length (http.Body r)))%N
        then closingErrorReply http.StatusBadRequest "invalid JSON payload"
               "http: request body too large"
        else errorReply http.StatusBadRequest "invalid JSON payload" "EOF").
Proof.
  intros rt h r now B.
  destruct (N.ltb_spec (N.shiftl 1 20) (N.of_nat (String.length (http.Body r))))
    as [Big|Small].
  - apply oversized_incomplete; [exact Big|]. left.
    destruct (decoderFor_oversized rt r Big) as [-> _].
    now apply skipSpace_limited.
  - rewrite handlePostEvent_unfold, decoderFor_within
      by (unfold exceedsLimit; lia).
    rewrite Decode_Event_whole. cbv zeta. rewrite B. reflexivity.
Qed.

(** The empty body, and 1 MiB of spaces: the limit itself is allowed. *)
Lemma blank_body_witness :
  json.skipSpace (http.Body (postEvents "")) = EmptyString /\
  json.skipSpace (http.Body (postEvents (padding (N.to_nat 1048576)))) = EmptyString /\
  (forall rt,
      handlePostEvent rt freshHandler http.newResponse (postEvents "") sampleNow =
      (freshHandler, errorReply http.StatusBadRequest "invalid JSON payload" "EOF")) /\
  (forall rt,
      handlePostEvent rt freshHandler http.newResponse
        (postEvents (padding (N.to_nat 1048576))) sampleNow =
      (freshHandler, errorReply http.StatusBadRequest "invalid JSON payload" "EOF")).
Proof.
  assert (P : forall n, json.skipSpace (padding n) = EmptyString)
    by (induction n; [reflexivity | exact IHn]).
  split; [reflexivity|]. split; [apply P|]. split.
  - intros rt. exact (blank_body rt freshHandler (postEvents "") sampleNow eq_refl).
  - intros rt.
    rewrite (blank_body rt freshHandler (postEvents (padding (N.to_nat 1048576)))
               sampleNow (P _)).
    cbn [http.Body postEvents]. rewrite length_padding, N2Nat.id. reflexivity.
Defined.

(** X7: a body within the limit that ends in the middle of its first
    JSON value is answered 400 "invalid JSON payload" with the details
    "unexpected EOF". *)
Theorem truncated_body :
  forall rt h r now,
    ~ exceedsLimit (http.Body r) ->
    json.skipSpace (http.Body r) <> EmptyString ->
    json.readValue (http.Body r) = json.NeedMore ->
    handlePostEvent rt h http.newResponse r now =
    (h, errorReply http.StatusBadRequest "invalid JSON payload" "unexpected EOF").
Proof.
  intros rt h r now Small NB T.
  rewrite handlePostEvent_unfold, decoderFor_within by exact Small.
  rewrite Decode_Event_whole. cbv zeta. rewrite T.
  destruct (json.skipSpace (http.Body r)); [contradiction|]. reflexivity.
Qed.

(** An object that is never closed. *)
Lemma truncated_body_witness :
  (~ exceedsLimit (http.Body (postEvents unclosedBody)) /\
   json.skipSpace (http.Body (postEvents unclosedBody)) <> EmptyString /\
   json.readValue (http.Body (postEvents unclosedBody)) = json.NeedMore) /\
  (forall rt,
      handlePostEvent rt freshHandler http.newResponse (postEvents unclosedBody) sampleNow =
      (freshHandler,
       errorReply http.StatusBadRequest "invalid JSON payload" "unexpected EOF")).
Proof.
  assert (S : ~ exceedsLimit (http.Body (postEvents unclosedBody)))
    by (vm_compute; discriminate).
  assert (NB : json.skipSpace (http.Body (postEvents unclosedBody)) <> EmptyString)
    by (vm_compute; discriminate).
  assert (T : json.readValue (http.Body (postEvents unclosedBody)) = json.NeedMore)
    by (vm_compute; reflexivity).
  split; [tauto|].
  intros rt. exact (truncated_body rt freshHandler (postEvents unclosedBody) sampleNow S NB T).
Defined.

(** X9: a body within the limit whose first value is an array, a
    string, a number or a boolean is answered 400 "invalid JSON payload",
    the details naming the kind of value that does not fit
    [model.Event]; what follows the value does not matter. *)
Theorem wrong_kind_rejected :
  forall rt h r now v rest,
    ~ exceedsLimit (http.Body r) ->
    json.readValue (http.Body r) = json.Scanned v rest ->
    wrongKind v = true ->
    handlePostEvent rt h http.newResponse r now =
    (h, errorReply http.StatusBadRequest "invalid JSON payload"
          ("json: cannot unmarshal " +:+ jsonfields.kindOf v
           +:+ " into Go value of type model.Event")).
Proof.
  intros rt h r now v rest Small R K.
  rewrite handlePostEvent_unfold, decoderFor_within by exact Small.
  rewrite Decode_Event_whole. cbv zeta. rewrite R.
  destruct (json.skipSpace (http.Body r)) eqn:B.
  { rewrite readValue_blank in R by exact B. discriminate R. }
  destruct v; try discriminate K; reflexivity.
Qed.

(** An empty array, and the number 42. *)
Lemma wrong_kind_rejected_witness :
  let array := postEvents "[]" in
  let number := postEvents "42" in
  (~ exceedsLimit (http.Body array) /\
   json.readValue (http.Body array) = json.Scanned (json.Array []) "" /\
   json.readValue (http.Body number) = json.Scanned (json.Number "42") "") /\
  (forall rt,
      handlePostEvent rt freshHandler http.newResponse array sampleNow =
      (freshHandler,
       errorReply http.StatusBadRequest "invalid JSON payload"
         "json: cannot unmarshal array into Go value of type model.Event")) /\
  (forall rt,
      handlePostEvent rt freshHandler http.newResponse number sampleNow =
      (freshHandler,
       errorReply http.StatusBadRequest "invalid JSON payload"
         "json: cannot unmarshal number into Go value of type model.Event")).
Proof.
  intros array number.
  assert (S1 : ~ exceedsLimit (http.Body array)) by (vm_compute; discriminate).
  assert (S2 : ~ exceedsLimit (http.Body number)) by (vm_compute; discriminate).
  assert (R1 : json.readValue (http.Body array) = json.Scanned (json.Array []) "")
    by (vm_compute; reflexivity).
  assert (R2 : json.readValue (http.Body number) = json.Scanned (json.Number "42") "")
    by (vm_compute; reflexivity).
  split; [tauto|]. split; intros rt.
  - exact (wrong_kind_rejected rt freshHandler array sampleNow _ _ S1 R1 eq_refl).
  - exact (wrong_kind_rejected rt freshHandler number sampleNow _ _ S2 R2 eq_refl).
Defined.

(** ** The empty envelope *)

Lemma unmarshal_emptyEnvelope v :
  emptyEnvelope v = true ->
  jsonfields.unmarshal "model.Event" ([] : list (jsonfields.StructField model.Event))
    true v model.zero = inr model.zero.
Proof. destruct v as [| | | | |[|m ms]]; try discriminate; reflexivity. Qed.

Lemma zero_fails_validation h w now :
  validateAndReply h w (defaultTimestamp model.zero now) =
  (h, httpError w http.StatusBadRequest "validation failed"
        (errors_New "ID is required.")).
Proof. reflexivity. Qed.

(** X10: a body within the limit that is [null] or the empty object,
    followed by nothing but white space or by a closing bracket, passes
    [Decode] and [More] and is rejected by validation: 400 "validation
    failed" with the details "ID is required.".  [More] does not count a
    closing bracket or brace as further content. *)
Theorem empty_envelope_fails_validation :
  forall rt h r now v rest,
    ~ exceedsLimit (http.Body r) ->
    json.readValue (http.Body r) = json.Scanned v rest ->
    emptyEnvelope v = true ->
    endsOrCloses rest = true ->
    handlePostEvent rt h http.newResponse r now =
    (h, errorReply http.StatusBadRequest "validation failed" "ID is required.").
Proof.
  intros rt h r now v rest Small R E M.
  rewrite handlePostEvent_unfold, decoderFor_within by exact Small.
  rewrite Decode_Event_whole. cbv zeta. rewrite R.
  destruct (json.skipSpace (http.Body r)) eqn:B.
  { rewrite readValue_blank in R by exact B. discriminate R. }
  cbn [decoder.isEmpty]. rewrite (unmarshal_emptyEnvelope v E), More_whole, M.
  cbn [negb]. apply zero_fails_validation.
Qed.

(** The empty object, [null], and the empty object followed by a
    closing brace. *)
Lemma empty_envelope_fails_validation_witness :
  (json.readValue "{}" = json.Scanned (json.Object []) "" /\
   json.readValue "null" = json.Scanned json.Null "" /\
   json.readValue "{} }" = json.Scanned (json.Object []) " }") /\
  (forall rt body,
      In body ["{}"; "null"; "{} }"] ->
      handlePostEvent rt freshHandler http.newResponse (postEvents body) sampleNow =
      (freshHandler,
       errorReply http.StatusBadRequest "validation failed" "ID is required.")).
Proof.
  assert (S : forall body, In body ["{}"; "null"; "{} }"] ->
                           ~ exceedsLimit (http.Body (postEvents body))).
  { intros body [<-|[<-|[<-|[]]]]; vm_compute; discriminate. }
  split; [repeat split; vm_compute; reflexivity|].
  intros rt body B. pose proof (S body B) as Small.
  destruct B as [<-|[<-|[<-|[]]]].
  - exact (empty_envelope_fails_validation rt freshHandler (postEvents "{}") sampleNow
             (json.Object []) "" Small eq_refl eq_refl eq_refl).
  - exact (empty_envelope_fails_validation rt freshHandler (postEvents "null") sampleNow
             json.Null "" Small eq_refl eq_refl eq_refl).
  - exact (empty_envelope_fails_validation rt freshHandler (postEvents "{} }") sampleNow
             (json.Object []) " }" Small eq_refl eq_refl eq_refl).
Defined.

(** X11: when anything else follows [null] or the empty object, the
    reply is 400 "unexpected extra JSON content" with the details
    "multiple JSON values". *)
Theorem extra_content_reported :
  forall rt h r now v rest,
    ~ exceedsLimit (http.Body r) ->
    json.readValue (http.Body r) = json.Scanned v rest ->
    emptyEnvelope v = true ->
    endsOrCloses rest = false ->
    handlePostEvent rt h http.newResponse r now =
    (h, errorReply http.StatusBadRequest "unexpected extra JSON content"
          "multiple JSON values").
Proof.
  intros rt h r now v rest Small R E M.
  rewrite handlePostEvent_unfold, decoderFor_within by exact Small.
  rewrite Decode_Event_whole. cbv zeta. rewrite R.
  destruct (json.skipSpace (http.Body r)) eqn:B.
  { rewrite readValue_blank in R by exact B. discriminate R. }
  cbn [decoder.isEmpty]. rewrite (unmarshal_emptyEnvelope v E), More_whole, M.
  reflexivity.
Qed.

(** Two empty objects. *)
Lemma extra_content_reported_witness :
  (~ exceedsLimit (http.Body (postEvents "{} {}")) /\
   json.readValue "{} {}" = json.Scanned (json.Object []) " {}" /\
   endsOrCloses " {}" = false) /\
  (forall rt,
      handlePostEvent rt freshHandler http.newResponse (postEvents "{} {}") sampleNow =
      (freshHandler,
       errorReply http.StatusBadRequest "unexpected extra JSON content"
         "multiple JSON values")).
Proof.
  assert (Small : ~ exceedsLimit (http.Body (postEvents "{} {}")))
    by (vm_compute; discriminate).
  split; [split; [exact Small | split; vm_compute; reflexivity]|].
  intros rt.
  exact (extra_content_reported rt freshHandler (postEvents "{} {}") sampleNow
           (json.Object []) " {}" Small eq_refl eq_refl eq_refl).
Defined.

Lemma length_String c s : String.length (String c s) = S (String.length s).
Proof. reflexivity. Qed.

(** ** Defaulting and validation *)

(** X13: the defaulting of the timestamp.  A timestamp that is not zero
    is kept as it is, zone included; a zero one becomes the clock reading
    in UTC, so the result is zero only if the clock reads the zero
    instant.  The payload and the verdict of [Validate] are not affected,
    and defaulting a second time changes nothing once the timestamp is
    set. *)
Theorem defaulting_timestamp :
  forall evt now now',
    let evt' := defaultTimestamp evt now in
    time.IsZero (model.Timestamp evt') =
      time.IsZero (model.Timestamp evt) && time.IsZero now /\
    model.Timestamp evt' =
      (if time.IsZero (model.Timestamp evt) then time.UTC now else model.Timestamp evt) /\
    model.Payload evt' = model.Payload evt /\
    model.Validate evt' = model.Validate evt /\
    (time.IsZero (model.Timestamp evt') = false -> defaultTimestamp evt' now' = evt').
Proof.
  intros evt now now' evt'.
  assert (K : time.IsZero (model.Timestamp evt') = false ->
              defaultTimestamp evt' now' = evt').
  { intros NZ. unfold defaultTimestamp at 1. now rewrite NZ. }
  split; [|split; [|split; [|split; [|exact K]]]];
    subst evt'; unfold defaultTimestamp;
    destruct (time.IsZero (model.Timestamp evt)) eqn:Z;
    try reflexivity; exact Z.
Qed.

(** X14: an event with a blank required field, after defaulting, is
    answered 400 "validation failed", the details being the text of the
    error for the first blank field; nothing is logged. *)
Theorem validation_failure_reply :
  forall h w evt now f,
    untouched w ->
    firstOffending evt = Some f ->
    let res := validateAndReply h w (defaultTimestamp evt now) in
    fst res = h /\
    repliesError (snd res) http.StatusBadRequest "validation failed"
      (Error (MissingField f)).
Proof.
  intros h w evt now f U F res. subst res.
  assert (V : model.Validate (defaultTimestamp evt now) = Some (MissingField f)).
  { transitivity (model.Validate evt).
    - unfold defaultTimestamp. destruct (time.IsZero _); reflexivity.
    - rewrite Validate_firstOffending, F. reflexivity. }
  exact (validateAndReply_rejects h w _ _ U V).
Qed.

(** A source of three spaces. *)
Lemma validation_failure_reply_witness :
  let evt := model.mkEvent "e1" "click" "   " time.zero None in
  let res := validateAndReply freshHandler http.newResponse
               (defaultTimestamp evt sampleNow) in
  (untouched http.newResponse /\ firstOffending evt = Some FieldSource) /\
  fst res = freshHandler /\
  repliesError (snd res) http.StatusBadRequest "validation failed" "Source is required.".
Proof.
  intros evt res.
  assert (F : firstOffending evt = Some FieldSource) by (vm_compute; reflexivity).
  split; [split; [exact newResponse_untouched | exact F]|].
  exact (validation_failure_reply freshHandler http.newResponse evt sampleNow
           FieldSource newResponse_untouched F).
Defined.

(** ** Object keys *)

Section Unquote.
Import json.

Lemma byteval_eqb c n : (byteval c =? n) = true -> c = ascii_of_N n.
Proof.
  intros H. apply N.eqb_eq in H. rewrite <- H. unfold byteval.
  now rewrite ascii_N_embedding.
Qed.

Lemma isByte_eq c d : isByte c (String d EmptyString) = true -> c = d.
Proof. unfold isByte. apply Ascii.eqb_eq. Qed.

Lemma of_to_bytes s : of_bytes (to_bytes s) = s.
Proof. apply string_of_list_ascii_of_string. Qed.

Lemma to_of_bytes b : to_bytes (of_bytes b) = b.
Proof. apply list_ascii_of_string_of_list_ascii. Qed.

(** What the scanner returns for a string literal is such a text. *)
Lemma scanString_closed st s raw rest :
  scanString st s = Scanned raw rest ->
  scanString st (of_bytes (to_bytes raw ++ ["034"%char])) = Scanned raw EmptyString.
Proof.
  revert st raw.
  induction s as [|c s IH]; intros st raw H; [destruct st; discriminate H|].
  destruct st as [| |k]; cbn [scanString] in H.
  - destruct (byteval c =? 34) eqn:Q.
    { inversion H; subst. reflexivity. }
    destruct (byteval c =? 92) eqn:B.
    { apply smap_Scanned in H as (a & H & ->). apply IH in H.
      cbn [to_bytes list_ascii_of_string app of_bytes string_of_list_ascii scanString].
      unfold to_bytes, of_bytes in H. rewrite Q, B, H. reflexivity. }
    destruct (byteval c <? 32) eqn:L; [discriminate H|].
    apply smap_Scanned in H as (a & H & ->). apply IH in H.
    cbn [to_bytes list_ascii_of_string app of_bytes string_of_list_ascii scanString].
    unfold to_bytes, of_bytes in H. rewrite Q, B, L, H. reflexivity.
  - match type of H with
    | (if ?c then _ else _) = _ => destruct c eqn:E
    end.
    { apply smap_Scanned in H as (a & H & ->). apply IH in H.
      cbn [to_bytes list_ascii_of_string app of_bytes string_of_list_ascii scanString].
      unfold to_bytes, of_bytes in H. rewrite E, H. reflexivity. }
    destruct (isByte c "u") eqn:U; [|discriminate H].
    apply smap_Scanned in H as (a & H & ->). apply IH in H.
    cbn [to_bytes list_ascii_of_string app of_bytes string_of_list_ascii scanString].
    unfold to_bytes, of_bytes in H. rewrite E, U, H. reflexivity.
  - destruct (isHex c) eqn:X; [|discriminate H].
    apply smap_Scanned in H as (a & H & ->). apply IH in H.
    cbn [to_bytes list_ascii_of_string app of_bytes string_of_list_ascii scanString].
    unfold to_bytes, of_bytes in H. rewrite X, H. reflexivity.
Qed.

Lemma scanString_quotedText s raw rest :
  scanString InString s = Scanned raw rest -> quotedText (to_bytes raw).
Proof.
  intros H. unfold quotedText. rewrite of_to_bytes. exact (scanString_closed _ _ _ _ H).
Qed.

Lemma quotedText_step c t :
  quotedText (c :: t) ->
  (byteval c =? 34) = false -> (byteval c =? 92) = false -> quotedText t.
Proof.
  unfold quotedText. cbn [app of_bytes string_of_list_ascii scanString].
  intros H Q B. rewrite Q, B in H.
  destruct (byteval c <? 32); [discriminate H|].
  apply smap_Scanned in H as (a & H & E). inversion E; subst. exact H.
Qed.

(** Bytes outside ASCII are ordinary characters of a string literal. *)
Lemma quotedText_drop k t :
  Forall (fun c => 0x80 <= byteval c) (take k t) -> quotedText t -> quotedText (drop k t).
Proof.
  revert t. induction k as [|k IH]; intros t F Q; [now rewrite drop_0|].
  destruct t as [|c t]; [exact Q|].
  cbn [take] in F. inversion F as [|? ? Hc Ft]; subst. cbn [drop].
  apply IH; [exact Ft|].
  apply (quotedText_step c t Q); apply N.eqb_neq; lia.
Qed.

Lemma isHex_hexVal c : isHex c = true -> exists v, jsonstr.hexVal c = Some v.
Proof.
  unfold isHex, isDigit, jsonstr.hexVal. intros H.
  destruct ((48 <=? byteval c) && (byteval c <=? 57)); [eauto|].
  destruct ((97 <=? byteval c) && (byteval c <=? 102)); [eauto|].
  destruct ((65 <=? byteval c) && (byteval c <=? 70)); [eauto|].
  discriminate H.
Qed.

Lemma scanString_esc_u rest :
  scanString InStringEsc (String "u" rest) =
  smap (String "u") (scanString (InStringEscU 3) rest).
Proof. reflexivity. Qed.

Lemma scanString_backslash c rest :
  (byteval c =? 92) = true ->
  scanString InString (String c rest) = smap (String c) (scanString InStringEsc rest).
Proof.
  intros B. cbn [scanString]. rewrite B.
  apply N.eqb_eq in B. destruct (N.eqb_spec (byteval c) 34) as [E|_]; [lia|reflexivity].
Qed.

(** After a backslash and [u] come four hexadecimal digits. *)
Lemma quotedText_u c u t :
  (byteval c =? 92) = true -> u = "u"%char ->
  quotedText (c :: u :: t) ->
  exists h1 h2 h3 h4 t',
    t = h1 :: h2 :: h3 :: h4 :: t' /\
    isHex h1 = true /\ isHex h2 = true /\ isHex h3 = true /\ isHex h4 = true /\
    quotedText t'.
Proof.
  intros B -> Q. unfold quotedText in Q.
  cbn [app of_bytes string_of_list_ascii] in Q.
  rewrite (scanString_backslash c _ B), scanString_esc_u in Q.
  apply smap_Scanned in Q as (a0 & Q & E0). inversion E0; subst a0; clear E0.
  apply smap_Scanned in Q as (a1 & Q & E1). inversion E1; subst a1; clear E1.
  destruct t as [|h1 t]; [discriminate Q|]. cbn [app string_of_list_ascii scanString] in Q.
  destruct (isHex h1) eqn:X1; [|discriminate Q].
  apply smap_Scanned in Q as (a & Q & E). inversion E; subst a; clear E.
  destruct t as [|h2 t]; [discriminate Q|]. cbn [app string_of_list_ascii scanString] in Q.
  destruct (isHex h2) eqn:X2; [|discriminate Q].
  apply smap_Scanned in Q as (a & Q & E). inversion E; subst a; clear E.
  destruct t as [|h3 t]; [discriminate Q|]. cbn [app string_of_list_ascii scanString] in Q.
  destruct (isHex h3) eqn:X3; [|discriminate Q].
  apply smap_Scanned in Q as (a & Q & E). inversion E; subst a; clear E.
  destruct t as [|h4 t]; [discriminate Q|]. cbn [app string_of_list_ascii scanString] in Q.
  destruct (isHex h4) eqn:X4; [|discriminate Q].
  apply smap_Scanned in Q as (a & Q & E). inversion E; subst a; clear E.
  exists h1, h2, h3, h4, t. repeat split; assumption.
Qed.

Lemma getu4_shape s rr :
  jsonstr.getu4 s = Some rr ->
  exists c h1 h2 h3 h4 t,
    s = c :: "u"%char :: h1 :: h2 :: h3 :: h4 :: t /\ (byteval c =? 92) = true.
Proof.
  unfold jsonstr.getu4. intros H.
  destruct s as [|c [|u [|h1 [|h2 [|h3 [|h4 t]]]]]]; try discriminate H.
  destruct (byteval c =? 92) eqn:B; [|discriminate H].
  destruct (byteval u =? 117) eqn:U; [|discriminate H].
  apply byteval_eqb in U. subst u. eauto 10.
Qed.

(** [unquoteBytes] accepts every such text. *)
Lemma unquoteBytes_quotedText n :
  forall b fuel,
    (length b <= n)%nat -> (length b <= fuel)%nat -> quotedText b ->
    is_Some (jsonstr.unquoteBytes fuel b).
Proof.
  induction n as [|n IH]; intros b fuel Ln Lf Q.
  { destruct b; [|simpl in Ln; lia]. destruct fuel; eexists; reflexivity. }
  destruct b as [|c t]; [destruct fuel; eexists; reflexivity|].
  destruct fuel as [|fuel]; [simpl in Lf; lia|].
  cbn [length] in Ln, Lf.
  cbn [jsonstr.unquoteBytes].
  destruct (byteval c =? 92) eqn:B.
  - (* an escape *)
    destruct t as [|e t].
    { unfold quotedText in Q. cbn in Q. rewrite B in Q.
      destruct (byteval c =? 34); discriminate Q. }
    cbn [length] in Ln, Lf.
    assert (Simple : quotedText t -> forall x,
               is_Some (cons x <$> jsonstr.unquoteBytes fuel t)).
    { intros Qt x. apply fmap_is_Some, IH; [lia | lia | exact Qt]. }
    assert (Q' := Q). unfold quotedText in Q'.
    cbn [app of_bytes string_of_list_ascii scanString] in Q'.
    rewrite B in Q'.
    destruct (byteval c =? 34) eqn:Q34; [discriminate Q'|].
    apply smap_Scanned in Q' as (a & Q' & E). inversion E; subst a; clear E.
    match type of Q' with
    | (if ?cond then _ else _) = _ => destruct cond eqn:Esc
    end.
    + apply smap_Scanned in Q' as (a & Q' & E). inversion E; subst a; clear E.
      repeat (apply orb_true_iff in Esc as [Esc|Esc]);
        try (apply isByte_eq in Esc); try (apply byteval_eqb in Esc);
        subst e; apply (Simple Q').
    + destruct (isByte e "u") eqn:U; [|discriminate Q'].
      apply isByte_eq in U.
      destruct (quotedText_u c e t B U Q)
        as (h1 & h2 & h3 & h4 & t' & -> & X1 & X2 & X3 & X4 & Qt).
      subst e. cbn [length] in Ln, Lf.
      destruct (isHex_hexVal _ X1) as (v1 & V1), (isHex_hexVal _ X2) as (v2 & V2),
               (isHex_hexVal _ X3) as (v3 & V3), (isHex_hexVal _ X4) as (v4 & V4).
      change (byteval "u" =? 34) with false. change (byteval "u" =? 92) with false.
      change (byteval "u" =? 47) with false. change (byteval "u" =? 39) with false.
      change (byteval "u" =? 98) with false. change (byteval "u" =? 102) with false.
      change (byteval "u" =? 110) with false. change (byteval "u" =? 114) with false.
      change (byteval "u" =? 116) with false. change (byteval "u" =? 117) with true.
      cbn [orb].
      unfold jsonstr.getu4 at 1. rewrite B, V1, V2, V3, V4.
      change (byteval "u" =? 117) with true. cbn [andb drop].
      rewrite drop_0.
      assert (Rec : forall f : bytes -> bytes,
                 is_Some (f <$> jsonstr.unquoteBytes fuel t'))
        by (intros f; apply fmap_is_Some, IH; [lia | lia | exact Qt]).
      destruct (jsonstr.IsSurrogate _); [|apply Rec].
      destruct (jsonstr.getu4 t') as [rr1|] eqn:G.
      * destruct (_ =? utf8.RuneError); [apply Rec|].
        destruct (getu4_shape _ _ G) as (c' & g1 & g2 & g3 & g4 & t'' & -> & B').
        destruct (quotedText_u c' "u" _ B' eq_refl Qt)
          as (k1 & k2 & k3 & k4 & t3 & E & _ & _ & _ & _ & Qt3).
        inversion E; subst. cbn [drop]. rewrite drop_0.
        cbn [length] in Ln, Lf.
        apply fmap_is_Some, IH; [lia | lia | exact Qt3].
      * change (utf8.RuneError =? utf8.RuneError) with true. cbn iota. apply Rec.
  - destruct (byteval c =? 34) eqn:Q34.
    { unfold quotedText in Q. cbn in Q. rewrite Q34 in Q. discriminate Q. }
    pose proof (quotedText_step c t Q Q34 B) as Qt.
    destruct (byteval c <? 32) eqn:L32.
    { unfold quotedText in Q. cbn in Q. rewrite Q34, B, L32 in Q. discriminate Q. }
    cbn [orb].
    destruct (byteval c <? utf8.RuneSelf) eqn:A.
    + apply fmap_is_Some, IH; [lia | lia | exact Qt].
    + apply N.ltb_ge in A. unfold utf8.RuneSelf in A.
      pose proof (DecodeRune_taken c t A) as T.
      pose proof (DecodeRune_size (c :: t) ltac:(discriminate)) as [[S1 S2] _].
      destruct (utf8.DecodeRuneInString (c :: t)) as [rr size]. cbn [snd] in *.
      destruct size as [|size]; [lia|]. cbn [take drop] in *.
      inversion T as [|? ? _ Tt]; subst.
      apply fmap_is_Some, IH.
      * rewrite length_drop. lia.
      * rewrite length_drop. lia.
      * now apply quotedText_drop.
Qed.

Lemma scanString_unquote s raw rest :
  scanString InString s = Scanned raw rest -> is_Some (jsonstr.unquote raw).
Proof.
  intros H. unfold jsonstr.unquote. apply fmap_is_Some.
  apply (unquoteBytes_quotedText (String.length raw)).
  - now rewrite length_to_bytes.
  - now rewrite length_to_bytes.
  - exact (scanString_quotedText _ _ _ H).
Qed.

End Unquote.

Section Keys.
Import json.

(** Every key of an object the scanner has read can be unquoted. *)
Lemma scanMembers_keys fuel :
  forall depth s ms rest,
    scanMembers fuel depth s = Scanned ms rest ->
    Forall (fun m => is_Some (jsonstr.unquote (fst m))) ms.
Proof.
  induction fuel as [|fuel IH]; intros depth s ms rest H; [discriminate H|].
  cbn [scanMembers] in H.
  destruct (skipSpace s) as [|c r0]; [discriminate H|].
  destruct (byteval c =? 34); [|discriminate H].
  destruct (scanString InString r0) as [key r1| | |] eqn:K; try discriminate H.
  apply scanString_unquote in K.
  destruct (skipSpace r1) as [|c1 r2]; [discriminate H|].
  destruct (isByte c1 ":"); [|discriminate H].
  destruct (scanValue fuel depth r2) as [v r3| | |]; try discriminate H.
  destruct (skipSpace r3) as [|c2 r4]; [discriminate H|].
  destruct (isByte c2 ",").
  - apply smap_Scanned in H as (ms' & H & ->).
    constructor; [exact K | exact (IH _ _ _ _ H)].
  - destruct (isByte c2 "}"); [|discriminate H].
    inversion H; subst. constructor; [exact K | constructor].
Qed.

Lemma scanValue_keys fuel depth s ms rest :
  scanValue fuel depth s = Scanned (Object ms) rest ->
  Forall (fun m => is_Some (jsonstr.unquote (fst m))) ms.
Proof.
  destruct fuel as [|fuel]; [discriminate|].
  cbn [scanValue].
  destruct (skipSpace s) as [|c r0]; [discriminate|].
  destruct (isByte c "{").
  { destruct (depth <? maxNestingDepth); [|discriminate].
    destruct (skipSpace r0) as [|c' r1]; [discriminate|].
    destruct (isByte c' "}").
    - intros H. inversion H; subst. constructor.
    - intros H. apply smap_Scanned in H as (ms' & H & E). inversion E; subst.
      exact (scanMembers_keys _ _ _ _ _ H). }
  destruct (isByte c "[").
  { destruct (depth <? maxNestingDepth); [|discriminate].
    destruct (skipSpace r0) as [|c' r1]; [discriminate|].
    destruct (isByte c' "]"); [discriminate|].
    intros H. apply smap_Scanned in H as (? & _ & E). discriminate E. }
  repeat match goal with
         | |- (if ?cond then _ else _) = _ -> _ => destruct cond
         end;
    intros H; try discriminate H;
    apply smap_Scanned in H as (? & _ & E); discriminate E.
Qed.

Lemma readValue_keys s ms rest :
  readValue s = Scanned (Object ms) rest ->
  Forall (fun m => is_Some (jsonstr.unquote (fst m))) ms.
Proof. apply scanValue_keys. Qed.

End Keys.

(** Once an error is saved, the remaining members of an object leave
    it in place: the first unknown key is the one reported. *)
Lemma storeMembers_saved {T} (ms : list (string * json.Value)) (t : T) e :
  Forall (fun m => is_Some (jsonstr.unquote (fst m))) ms ->
  jsonfields.storeMembers [] true ms t (Some e) = inr (t, Some e).
Proof.
  induction 1 as [|[k v] ms [key K] _ IH]; [reflexivity|].
  cbn [jsonfields.storeMembers]. cbn [fst] in K. rewrite K. exact IH.
Qed.

(** X15: a body within the limit whose first value is an object with at
    least one member is answered 400 "invalid JSON payload", and the
    details name the first key of the object as an unknown field,
    whatever the key is and whatever follows.  The text of the key is
    that of [%q], which [escapeQuoted] gives for printable ASCII. *)
Theorem first_key_unknown :
  forall rt h r now rawKey v ms rest key,
    ~ exceedsLimit (http.Body r) ->
    json.readValue (http.Body r) = json.Scanned (json.Object ((rawKey, v) :: ms)) rest ->
    jsonstr.unquote rawKey = Some key ->
    printable key = true ->
    handlePostEvent rt h http.newResponse r now =
    (h, errorReply http.StatusBadRequest "invalid JSON payload"
          ("json: unknown field " +:+ dquote +:+ escapeQuoted key +:+ dquote)).
Proof.
  intros rt h r now rawKey v ms rest key Small R K _.
  rewrite handlePostEvent_unfold, decoderFor_within by exact Small.
  rewrite Decode_Event_whole. cbv zeta. rewrite R.
  destruct (json.skipSpace (http.Body r)) eqn:B.
  { rewrite readValue_blank in R by exact B. discriminate R. }
  apply readValue_keys in R. inversion R as [|? ? _ Rms]; subst.
  cbn [decoder.isEmpty jsonfields.unmarshal jsonfields.storeMembers].
  rewrite K. cbn [jsonfields.findField List.find jsonfields.firstError].
  rewrite (storeMembers_saved ms model.zero _ Rms). reflexivity.
Qed.

(** Two click events in a row: the unknown field is reported, not the
    content after the first value. *)
Lemma first_key_unknown_witness :
  (~ exceedsLimit (http.Body (postEvents twoEvents)) /\
   jsonstr.unquote "id" = Some "id" /\ printable "id" = true) /\
  (forall rt,
      handlePostEvent rt freshHandler http.newResponse (postEvents twoEvents) sampleNow =
      (freshHandler,
       errorReply http.StatusBadRequest "invalid JSON payload"
         ("json: unknown field " +:+ dquote +:+ "id" +:+ dquote))).
Proof.
  assert (Small : ~ exceedsLimit (http.Body (postEvents twoEvents)))
    by (vm_compute; discriminate).
  split; [split; [exact Small | split; vm_compute; reflexivity]|].
  intros rt.
  refine (first_key_unknown rt freshHandler (postEvents twoEvents) sampleNow
            "id" (json.Str "e1")
            [("type", json.Str "click"); ("source", json.Str "web")]
            clickBody "id" Small _ _ _); vm_compute; reflexivity.
Defined.

(** ** The text of the replies *)

Section Encoder.
Import json.

Lemma of_bytes_app a b : of_bytes (a ++ b) = of_bytes a +:+ of_bytes b.
Proof.
  unfold of_bytes. induction a as [|c a IH]; [reflexivity|].
  change ((c :: a) ++ b) with (c :: (a ++ b)).
  cbn [string_of_list_ascii append]. now rewrite IH.
Qed.

Lemma append_cons c s t : String c s +:+ t = String c (s +:+ t).
Proof. reflexivity. Qed.

Lemma append_nil_l s : "" +:+ s = s.
Proof. reflexivity. Qed.

Lemma append_nil_r s : s +:+ "" = s.
Proof. induction s as [|c s IH]; [reflexivity|]. now rewrite append_cons, IH. Qed.

Lemma append_assoc a b c : (a +:+ b) +:+ c = a +:+ (b +:+ c).
Proof. induction a as [|x a IH]; [reflexivity|]. now rewrite !append_cons, IH. Qed.

(** For a text [p] that is written out: run the scanner over it. *)
Ltac scan_text H :=
  repeat match goal with
         | |- context [of_bytes ?p] =>
           let v := eval vm_compute in (of_bytes p) in change (of_bytes p) with v
         end;
  rewrite !append_cons, !append_nil_l; cbn; rewrite H; reflexivity.

Lemma passes_nil : passes [].
Proof. intros y raw rest H. exact H. Qed.

Lemma passes_app p q : passes p -> passes q -> passes (p ++ q).
Proof.
  intros P Q y raw rest H. rewrite of_bytes_app, !append_assoc.
  apply P, Q, H.
Qed.

Lemma passes_plain c :
  0x20 <= byteval c -> byteval c <> 34 -> byteval c <> 92 -> passes [c].
Proof.
  intros L Q B y raw rest H.
  change (of_bytes [c]) with (String c ""). rewrite !append_cons, !append_nil_l.
  cbn [scanString].
  apply N.eqb_neq in Q, B. apply N.ltb_ge in L.
  rewrite Q, B, L, H. reflexivity.
Qed.

Lemma passes_high p : Forall (fun c => 0x80 <= byteval c) p -> passes p.
Proof.
  induction 1 as [|c p Hc _ IH]; [exact passes_nil|].
  apply (passes_app [c] p); [|exact IH].
  apply passes_plain; lia.
Qed.

Lemma passes_escape c :
  byteval c < 0x80 -> jsonenc.htmlSafeSet (byteval c) = false -> passes (jsonenc.escape c).
Proof.
  intros A S y raw rest H. revert A S.
  destruct c as [[] [] [] [] [] [] [] []];
    try (intros A; exfalso; revert A; vm_compute; discriminate);
    try (intros _ S; exfalso; revert S; vm_compute; discriminate);
    intros _ _; scan_text H.
Qed.

Lemma passes_appendString fuel : forall src, passes (jsonenc.appendString_from fuel src).
Proof.
  induction fuel as [|fuel IH]; intros src; [exact passes_nil|].
  cbn [jsonenc.appendString_from].
  destruct src as [|c t]; [exact passes_nil|].
  destruct (byteval c <? utf8.RuneSelf) eqn:A.
  - apply N.ltb_lt in A. unfold utf8.RuneSelf in A.
    apply passes_app; [|apply IH].
    destruct (jsonenc.htmlSafeSet (byteval c)) eqn:S; [|now apply passes_escape].
    unfold jsonenc.htmlSafeSet in S.
    apply andb_true_iff in S as [S1 S2]. apply andb_true_iff in S1 as [S1 _].
    apply negb_true_iff in S2. repeat (apply orb_false_iff in S2 as [S2 ?]).
    apply passes_plain; [now apply N.leb_le | now apply N.eqb_neq | now apply N.eqb_neq].
  - apply N.ltb_ge in A. unfold utf8.RuneSelf in A.
    change (take utf8.UTFMax (c :: t)) with (c :: take 3 t).
    pose proof (DecodeRune_taken c (take 3 t) A) as T.
    destruct (utf8.DecodeRuneInString (c :: take 3 t)) as [r size] eqn:D.
    cbn [snd] in T.
    destruct ((r =? utf8.RuneError) && (size =? 1)%nat).
    { apply passes_app; [|apply IH].
      intros y raw rest H. scan_text H. }
    destruct ((r =? 0x2028) || (r =? 0x2029)) eqn:LS.
    { apply passes_app; [|apply IH].
      apply orb_true_iff in LS as [LS|LS]; apply N.eqb_eq in LS; subst r;
        intros y raw rest H; scan_text H. }
    apply passes_app; [|apply IH].
    apply passes_high.
    assert (E : take size (c :: t) = take size (c :: take 3 t)).
    { pose proof (DecodeRune_size (c :: take 3 t) ltac:(discriminate)) as [_ S4].
      rewrite D in S4. cbn [snd] in S4.
      change (c :: take 3 t) with (take 4 (c :: t)).
      rewrite take_take. f_equal. lia. }
    rewrite E. exact T.
Qed.

(** Read from its opening quote on, what [appendString] writes is
    taken whole as one string literal. *)
Lemma appendString_scans s rest :
  scanString InString (jsonenc.quoted s +:+ dquote +:+ rest) =
  Scanned (jsonenc.quoted s) rest.
Proof.
  unfold jsonenc.quoted.
  rewrite <- (append_nil_r (of_bytes _)) at 2.
  apply passes_appendString. reflexivity.
Qed.

End Encoder.

Section Bodies.
Import json.

Lemma scanValue_quoted f d s rest :
  scanValue (S f) d (String "034" (jsonenc.quoted s +:+ String "034" rest)) =
  Scanned (Str (jsonenc.quoted s)) rest.
Proof.
  cbn [scanValue skipSpace]. change (isSpace "034") with false. cbn iota.
  change (isByte "034" "{") with false. change (isByte "034" "[") with false.
  change (byteval "034" =? 34) with true. cbn iota.
  change (String "034" rest) with (dquote +:+ rest).
  rewrite appendString_scans. reflexivity.
Qed.

Lemma sortedEntries_error message details :
  jsonenc.sortedEntries {[ "error" := message; "details" := details ]} =
  [("details", details); ("error", message)].
Proof. reflexivity. Qed.

Lemma sortedEntries_accepted id :
  jsonenc.sortedEntries {[ "status" := "accepted"; "id" := id ]} =
  [("id", id); ("status", "accepted")].
Proof. reflexivity. Qed.

Lemma Encode_error message details :
  jsonenc.Encode {[ "error" := message; "details" := details ]} =
  object2 "details" details "error" message +:+ newline.
Proof.
  unfold jsonenc.Encode, jsonenc.Marshal. rewrite sortedEntries_error.
  unfold object2, newline. cbn [jsonenc.members].
  rewrite !append_assoc, !append_nil_l, ?append_nil_r. reflexivity.
Qed.

Lemma Encode_accepted id :
  jsonenc.Encode {[ "status" := "accepted"; "id" := id ]} =
  object2 "id" id "status" "accepted" +:+ newline.
Proof.
  unfold jsonenc.Encode, jsonenc.Marshal. rewrite sortedEntries_accepted.
  unfold object2, newline. cbn [jsonenc.members].
  rewrite !append_assoc, !append_nil_l, ?append_nil_r. reflexivity.
Qed.

(** One member of an object as the encoder writes it, read by the
    scanner up to the byte that follows it. *)
Lemma scanMembers_member f d k v c rest :
  isSpace c = false ->
  scanMembers (S (S f)) d
    (String "034" (jsonenc.quoted k +:+ String "034" (String ":"
       (String "034" (jsonenc.quoted v +:+ String "034" (String c rest)))))) =
  if isByte c "," then
    smap (cons (jsonenc.quoted k, Str (jsonenc.quoted v))) (scanMembers (S f) d rest)
  else if isByte c "}" then Scanned [(jsonenc.quoted k, Str (jsonenc.quoted v))] rest
  else Invalid c "after object key:value pair".
Proof.
  intros Hc. remember (S f) as g eqn:G.
  cbn [scanMembers skipSpace].
  change (isSpace "034") with false. cbn iota.
  change (byteval "034" =? 34) with true. cbn iota.
  change (String "034" (String ":" ?x)) with (dquote +:+ String ":" x).
  rewrite appendString_scans. cbn [skipSpace].
  change (isSpace ":") with false. change (isByte ":" ":") with true. cbn iota.
  subst g. rewrite scanValue_quoted. cbn [skipSpace]. rewrite Hc. reflexivity.
Qed.

(** Such a text reads back as one object with the two members, and the
    strings between the quotes are those written. *)
Lemma object2_reads k1 v1 k2 v2 rest :
  readValue (object2 k1 v1 k2 v2 +:+ rest) =
  Scanned (Object [ (jsonenc.quoted k1, Str (jsonenc.quoted v1));
                    (jsonenc.quoted k2, Str (jsonenc.quoted v2)) ]) rest.
Proof.
  unfold readValue.
  set (text := object2 k1 v1 k2 v2 +:+ rest).
  assert (E : text =
    String "{" (String "034" (jsonenc.quoted k1 +:+ String "034" (String ":"
      (String "034" (jsonenc.quoted v1 +:+ String "034" (String ","
        (String "034" (jsonenc.quoted k2 +:+ String "034" (String ":"
          (String "034" (jsonenc.quoted v2 +:+ String "034" (String "}" rest))))))))))))).
  { unfold text, object2, jsonenc.appendString, dquote.
    rewrite !append_assoc, !append_cons, !append_nil_l. reflexivity. }
  assert (F : exists f, (2 * String.length text = S (S (S f)))%nat).
  { rewrite E, !length_String. set (n := String.length _).
    exists (S (2 * n))%nat. lia. }
  destruct F as [f ->]. rewrite E. clear E text.
  remember (S (S (S f))) as g eqn:G.
  cbn [scanValue skipSpace].
  change (isSpace "{") with false. change (isSpace "034") with false. cbn iota.
  change (isByte "{" "{") with true. change (0 <? maxNestingDepth) with true. cbn iota.
  change (isByte "034" "}") with false. cbn iota.
  subst g.
  rewrite scanMembers_member by reflexivity.
  change (isByte "," ",") with true. cbn iota.
  rewrite scanMembers_member by reflexivity.
  reflexivity.
Qed.

End Bodies.

Section RoundTrip.

(** One ASCII byte, as written by [appendString], is read back by
    [unquoteBytes] as that byte. *)
Lemma unquoteBytes_written c x fuel :
  byteval c < 0x80 ->
  jsonstr.unquoteBytes (S fuel)
    ((if jsonenc.htmlSafeSet (byteval c) then [c] else jsonenc.escape c) ++ x) =
  cons c <$> jsonstr.unquoteBytes fuel x.
Proof.
  destruct c as [[] [] [] [] [] [] [] []];
    try (intros A; exfalso; revert A; vm_compute; discriminate);
    intros _; cbn; rewrite ?drop_0; reflexivity.
Qed.

Lemma written_length c :
  (1 <= length (if jsonenc.htmlSafeSet (byteval c) then [c] else jsonenc.escape c))%nat.
Proof.
  destruct (jsonenc.htmlSafeSet (byteval c)); [simpl; lia|].
  unfold jsonenc.escape.
  repeat match goal with |- context [if ?b then _ else _] => destruct b end;
    simpl; lia.
Qed.

Lemma unquoteBytes_appendString src :
  forallb (fun c => byteval c <? utf8.RuneSelf) src = true ->
  forall f fuel,
    (length src <= f)%nat ->
    (length (jsonenc.appendString_from f src) <= fuel)%nat ->
    jsonstr.unquoteBytes fuel (jsonenc.appendString_from f src) = Some src.
Proof.
  induction src as [|c t IH]; intros A f fuel Lf L.
  { destruct f, fuel; reflexivity. }
  cbn [forallb] in A. apply andb_true_iff in A as [Ac At].
  destruct f as [|f]; [simpl in Lf; lia|].
  cbn [jsonenc.appendString_from] in *. rewrite Ac in *.
  rewrite length_app in L. pose proof (written_length c) as W.
  destruct fuel as [|fuel]; [lia|].
  apply N.ltb_lt in Ac. unfold utf8.RuneSelf in Ac.
  rewrite (unquoteBytes_written c _ fuel Ac).
  rewrite (IH At f fuel); [reflexivity | simpl in Lf; lia | lia].
Qed.

Lemma length_of_bytes b : String.length (of_bytes b) = length b.
Proof. now rewrite <- length_to_bytes, to_of_bytes. Qed.

Lemma quoted_unquotes s : isASCII s = true -> jsonstr.unquote (jsonenc.quoted s) = Some s.
Proof.
  intros A. unfold jsonstr.unquote, jsonenc.quoted.
  rewrite to_of_bytes, length_of_bytes.
  rewrite (unquoteBytes_appendString (to_bytes s) A).
  - cbn. now rewrite of_to_bytes.
  - now rewrite length_to_bytes.
  - lia.
Qed.

End RoundTrip.

(** ** The bytes of the replies *)

Lemma bodyText_JSON w m : http.Written w = [http.JSON m] -> bodyText w = jsonenc.Encode m.
Proof. intros E. unfold bodyText. rewrite E. cbn [foldr chunkText]. apply append_nil_r. Qed.

Lemma error_text w status message details :
  repliesError w status message details ->
  bodyText w = object2 "details" details "error" message +:+ newline /\
  json.readValue (bodyText w) =
  json.Scanned (json.Object [ ("details", json.Str (jsonenc.quoted details));
                              ("error", json.Str (jsonenc.quoted message)) ]) newline.
Proof.
  intros (_ & W & _). rewrite (bodyText_JSON w _ W), Encode_error.
  split; [reflexivity|]. apply object2_reads.
Qed.

(** X16: whatever the request, the body of the reply of
    [handlePostEvent] is one JSON object with the members [details] and
    [error], in this order, and a line feed: the scanner reads it back
    as that object, even when the details repeat bytes of the request. *)
Theorem reply_text_is_json :
  forall rt h r now,
    let text := bodyText (snd (handlePostEvent rt h http.newResponse r now)) in
    exists message details,
      text = object2 "details" details "error" message +:+ newline /\
      json.readValue text =
      json.Scanned (json.Object [ ("details", json.Str (jsonenc.quoted details));
                                  ("error", json.Str (jsonenc.quoted message)) ])
                   newline.
Proof.
  intros rt h r now text. subst text.
  destruct (handlePostEvent_rejects rt h r now) as (_ & message & err & S).
  exists message, (Error err). exact (error_text _ _ _ _ S).
Qed.

(** X17: the body written for an accepted event whose id is ASCII is
    the JSON object with the members [id] and [status], in this order
    ([Encode] sorts the keys of a map), and a line feed; read back and
    unquoted, the member [id] is the event's id. *)
Theorem accepted_text :
  forall h w evt,
    untouched w ->
    model.Validate evt = None ->
    isASCII (model.ID evt) = true ->
    let text := bodyText (snd (validateAndReply h w evt)) in
    text = object2 "id" (model.ID evt) "status" "accepted" +:+ newline /\
    json.readValue text =
    json.Scanned (json.Object [ ("id", json.Str (jsonenc.quoted (model.ID evt)));
                                ("status", json.Str "accepted") ]) newline /\
    jsonstr.unquote (jsonenc.quoted (model.ID evt)) = Some (model.ID evt).
Proof.
  intros h w evt U V A text. subst text.
  destruct (validateAndReply_accepts h w evt U V) as (_ & _ & W & _).
  rewrite (bodyText_JSON _ _ W), Encode_accepted.
  split; [reflexivity|]. split; [apply object2_reads | now apply quoted_unquotes].
Qed.

(** The event [e1]. *)
Lemma accepted_text_witness :
  let evt := model.mkEvent "e1" "click" "web" sampleNow None in
  (untouched http.newResponse /\ model.Validate evt = None /\
   isASCII (model.ID evt) = true) /\
  bodyText (snd (validateAndReply freshHandler http.newResponse evt)) =
  "{" +:+ dquote +:+ "id" +:+ dquote +:+ ":" +:+ dquote +:+ "e1" +:+ dquote +:+ ","
  +:+ dquote +:+ "status" +:+ dquote +:+ ":" +:+ dquote +:+ "accepted" +:+ dquote
  +:+ "}" +:+ newline.
Proof.
  intros evt.
  assert (V : model.Validate evt = None) by (vm_compute; reflexivity).
  assert (A : isASCII (model.ID evt) = true) by (vm_compute; reflexivity).
  split; [split; [exact newResponse_untouched | split; [exact V | exact A]]|].
  destruct (accepted_text freshHandler http.newResponse evt newResponse_untouched V A)
    as [-> _].
  vm_compute. reflexivity.
Defined.

(** X18: what [Encode] writes for a string can always be unquoted
    again, and for an ASCII string unquoting gives the string back. *)
Theorem strings_survive_encoding :
  forall s,
    is_Some (jsonstr.unquote (jsonenc.quoted s)) /\
    (isASCII s = true -> jsonstr.unquote (jsonenc.quoted s) = Some s).
Proof.
  intros s. split; [|apply quoted_unquotes].
  apply (scanString_unquote (jsonenc.quoted s +:+ dquote +:+ "") _ "").
  apply appendString_scans.
Qed.
